(** * crypto-research-agent: the dashboard page and its proxy route

    A shallow embedding of [src/app/page.tsx] (component [Home]: the token
    field list, [handleSubmit], the dark-mode effects, [TokenSchema]) and of
    [src/app/api/research/route.ts] (handler [GET]).

    JavaScript strings are sequences of UTF-16 code units, so they are
    lists of [N] here.  What the platform supplies and the repository does
    not define ([String.prototype.toLowerCase], the URL parser behind zod's
    [.url()], the network) is a parameter of the model; [JSON.parse] and
    [JSON.stringify] with numbers as the binary64 values they are,
    [String.prototype.trim], and the way the query of a fetched URL reaches
    a handler are written out. *)

From Stdlib Require Import ZArith NArith Ascii String DecimalString.
From Stdlib Require DecimalNat DecimalFacts.
From stdpp Require Import base option list gmap.

Set Warnings "-register-all".

(** ** JavaScript strings *)

Module JS.

Local Open Scope N_scope.

Abbreviation codeunit := N (only parsing).
Abbreviation jsstring := (list N) (only parsing).

(** An ASCII literal as a JavaScript string. *)
Definition js (s : string) : jsstring :=
  map N_of_ascii (list_ascii_of_string s).

(** The empty string, [''] in the source. *)
Definition empty : jsstring := [].

Definition eqb (a b : jsstring) : bool := bool_decide (a = b).

(** WhiteSpace and LineTerminator code points of ECMAScript, the ones
    [trim] strips: TAB, LF, VT, FF, CR, SP, NBSP, U+1680, U+2000..U+200A,
    U+2028, U+2029, U+202F, U+205F, U+3000, U+FEFF. *)
Definition isWhiteSpace (c : codeunit) : bool :=
  (0x0009 <=? c) && (c <=? 0x000D)
  || (c =? 0x0020) || (c =? 0x00A0) || (c =? 0x1680)
  || (0x2000 <=? c) && (c <=? 0x200A)
  || (c =? 0x2028) || (c =? 0x2029) || (c =? 0x202F)
  || (c =? 0x205F) || (c =? 0x3000) || (c =? 0xFEFF).

Fixpoint trimStart (s : jsstring) : jsstring :=
  match s with
  | c :: r => if isWhiteSpace c then trimStart r else s
  | [] => []
  end.

Definition trimEnd (s : jsstring) : jsstring := rev (trimStart (rev s)).

Definition trim (s : jsstring) : jsstring := trimEnd (trimStart s).

(** ToBoolean on a string: the empty string is the only falsy one. *)
Definition truthy (s : jsstring) : bool :=
  match s with [] => false | _ :: _ => true end.

(** Number to decimal string, as a template literal prints a count. *)
Definition of_nat (n : nat) : jsstring :=
  js (NilZero.string_of_uint (Nat.to_uint n)).

End JS.

Import JS.

(** A string literal, as its code units. *)
Ltac spell s := let l := eval vm_compute in s in change s with l.

(** ** JSON values *)

Module Json.

Local Open Scope N_scope.

(** A number is what JavaScript holds: an IEEE 754 binary64, never a NaN
    ([JSON.parse] yields none).  [Finite neg m e] is [m * 2^e], with
    [2^52 <= m < 2^53] and [-1074 <= e <= 971], or, for the subnormals,
    [0 < m < 2^52] and [e = -1074]. *)
Inductive number :=
| Zero (neg : bool)
| Finite (neg : bool) (m : Z) (e : Z)
| Infinite (neg : bool).

(** [n / d >= 2^l], for positive [n] and [d]. *)
Definition reaches (n d l : Z) : bool :=
  (if 0 <=? l then d * 2 ^ l <=? n else d <=? n * 2 ^ (- l))%Z.

(** The binary64 nearest to [n / d], for [0 <= n] and [0 < d]: round to
    nearest, ties to the even significand, overflow to infinity. *)
Definition nearest (neg : bool) (n d : Z) : number :=
  (if n =? 0 then Zero neg
   else
     let l0 := Z.log2 n - Z.log2 d in
     let l := if reaches n d l0 then l0 else l0 - 1 in   (* floor (log2 (n / d)) *)
     let e := Z.max (l - 52) (-1074) in
     let num := if 0 <=? e then n else n * 2 ^ (- e) in
     let den := if 0 <=? e then d * 2 ^ e else d in
     let q := num / den in
     let r := num mod den in
     let m := if 2 * r <? den then q
              else if den <? 2 * r then q + 1
              else if Z.even q then q else q + 1 in
     if m =? 0 then Zero neg
     else
       let e' := if m =? 2 ^ 53 then e + 1 else e in
       let m' := if m =? 2 ^ 53 then 2 ^ 52 else m in
       if 971 <? e' then Infinite neg else Finite neg m' e')%Z.

(** An object keeps its members in text order; a later member with the
    same key overrides an earlier one, as it does in [JSON.parse]. *)
Inductive json :=
| JNull
| JBool (b : bool)
| JNum (n : number)
| JStr (s : jsstring)
| JArr (elems : list json)
| JObj (members : list (jsstring * json)).

Fixpoint assoc_last (k : jsstring) (ms : list (jsstring * json)) : option json :=
  match ms with
  | [] => None
  | (k', v) :: r =>
      match assoc_last k r with
      | Some w => Some w
      | None => if eqb k k' then Some v else None
      end
  end.

(** Property read [data[key]] on a parsed value: [None] is [undefined]. *)
Definition get (k : string) (d : json) : option json :=
  match d with
  | JObj ms => assoc_last (js k) ms
  | _ => None
  end.

(** *** [JSON.parse]

    Recursive descent over the code units, by the JSON grammar of ECMA-404.
    The three mutually recursive parsers (value, array tail, object tail)
    descend on a fuel argument; [JSON_parse] supplies [2 * length + 1],
    which [parse_value_fuel] shows is always enough. *)

Inductive parsed :=
| Parsed (v : json) (rest : jsstring)
| SyntaxError
| OutOfFuel.

Definition isJsonWs (c : codeunit) : bool :=
  (c =? 0x20) || (c =? 0x09) || (c =? 0x0A) || (c =? 0x0D).

Fixpoint skip_ws (s : jsstring) : jsstring :=
  match s with
  | c :: r => if isJsonWs c then skip_ws r else s
  | [] => []
  end.

Fixpoint strip_prefix (p s : jsstring) : option jsstring :=
  match p, s with
  | [], _ => Some s
  | a :: p', b :: s' => if a =? b then strip_prefix p' s' else None
  | _ :: _, [] => None
  end.

Definition isDigit (c : codeunit) : bool := (0x30 <=? c) && (c <=? 0x39).

Definition hexval (c : codeunit) : option N :=
  if isDigit c then Some (c - 0x30)
  else if (0x41 <=? c) && (c <=? 0x46) then Some (c - 0x41 + 10)
  else if (0x61 <=? c) && (c <=? 0x66) then Some (c - 0x61 + 10)
  else None.

Definition hex4 (a b c d : codeunit) : option codeunit :=
  match hexval a, hexval b, hexval c, hexval d with
  | Some x, Some y, Some z, Some w => Some (((x * 16 + y) * 16 + z) * 16 + w)
  | _, _, _, _ => None
  end.

(** The single-character escapes: quote, backslash, slash, b f n r t. *)
Definition unescape (e : codeunit) : option codeunit :=
  if e =? 0x22 then Some 0x22
  else if e =? 0x5C then Some 0x5C
  else if e =? 0x2F then Some 0x2F
  else if e =? 0x62 then Some 0x08
  else if e =? 0x66 then Some 0x0C
  else if e =? 0x6E then Some 0x0A
  else if e =? 0x72 then Some 0x0D
  else if e =? 0x74 then Some 0x09
  else None.

(** The characters of a string after its opening quote, up to and
    including the closing one; [acc] is the text read so far, reversed. *)
Fixpoint parse_chars (s : jsstring) (acc : jsstring) : option (jsstring * jsstring) :=
  match s with
  | [] => None
  | c :: r =>
      if c =? 0x22 then Some (rev acc, r)
      else if c =? 0x5C then
        match r with
        | [] => None
        | e :: r1 =>
            if e =? 0x75 then
              match r1 with
              | h1 :: h2 :: h3 :: h4 :: r2 =>
                  match hex4 h1 h2 h3 h4 with
                  | Some u => parse_chars r2 (u :: acc)
                  | None => None
                  end
              | _ => None
              end
            else
              match unescape e with
              | Some u => parse_chars r1 (u :: acc)
              | None => None
              end
        end
      else if c <? 0x20 then None
      else parse_chars r (c :: acc)
  end.

(** A maximal run of decimal digits, most significant first. *)
Fixpoint take_digits (s : jsstring) : list N * jsstring :=
  match s with
  | c :: r =>
      if isDigit c then let '(ds, r') := take_digits r in ((c - 0x30) :: ds, r')
      else ([], s)
  | [] => ([], [])
  end.

Definition digits_value (ds : list N) : Z :=
  fold_left (fun a d => (a * 10 + Z.of_N d)%Z) ds 0%Z.

(** int: a lone [0], or a nonzero digit followed by digits. *)
Definition parse_int (s : jsstring) : option (list N * jsstring) :=
  match s with
  | c :: r =>
      if c =? 0x30 then Some ([0], r)
      else if isDigit c then Some (take_digits s)
      else None
  | [] => None
  end.

(** frac: nothing, or a dot followed by at least one digit. *)
Definition parse_frac (s : jsstring) : option (list N * jsstring) :=
  match s with
  | c :: r =>
      if c =? 0x2E then
        match take_digits r with
        | ([], _) => None
        | (ds, r') => Some (ds, r')
        end
      else Some ([], s)
  | [] => Some ([], [])
  end.

(** exp: nothing, or [e]/[E], an optional sign, at least one digit. *)
Definition parse_exp (s : jsstring) : option (Z * jsstring) :=
  match s with
  | c :: r =>
      if (c =? 0x65) || (c =? 0x45) then
        let '(neg, r1) :=
          match r with
          | g :: r0 =>
              if g =? 0x2D then (true, r0)
              else if g =? 0x2B then (false, r0)
              else (false, r)
          | [] => (false, r)
          end in
        match take_digits r1 with
        | ([], _) => None
        | (ds, r') =>
            Some (if neg then (- digits_value ds)%Z else digits_value ds, r')
        end
      else Some (0%Z, s)
  | [] => Some (0%Z, [])
  end.

Definition parse_number (s : jsstring) : option (number * jsstring) :=
  let '(neg, s1) :=
    match s with
    | c :: r => if c =? 0x2D then (true, r) else (false, s)
    | [] => (false, s)
    end in
  match parse_int s1 with
  | None => None
  | Some (ip, s2) =>
      match parse_frac s2 with
      | None => None
      | Some (fp, s3) =>
          match parse_exp s3 with
          | None => None
          | Some (ex, s4) =>
              let m := digits_value (ip ++ fp) in
              let e := (ex - Z.of_nat (length fp))%Z in
              Some (if (m =? 0)%Z then Zero neg
                    else if (0 <=? e)%Z
                    then nearest neg (m * 10 ^ e)%Z 1%Z
                    else nearest neg m (10 ^ (- e))%Z, s4)
          end
      end
  end.

Definition parse_literal (s : jsstring) : parsed :=
  match strip_prefix (js "true") s with
  | Some r => Parsed (JBool true) r
  | None =>
      match strip_prefix (js "false") s with
      | Some r => Parsed (JBool false) r
      | None =>
          match strip_prefix (js "null") s with
          | Some r => Parsed JNull r
          | None => SyntaxError
          end
      end
  end.

Fixpoint parse_value (fuel : nat) (s : jsstring) : parsed :=
  match fuel with
  | O => OutOfFuel
  | S f =>
      match skip_ws s with
      | [] => SyntaxError
      | c :: r =>
          if c =? 0x7B then
            match skip_ws r with
            | d :: r' => if d =? 0x7D then Parsed (JObj []) r'
                         else parse_members f r []
            | [] => SyntaxError
            end
          else if c =? 0x5B then
            match skip_ws r with
            | d :: r' => if d =? 0x5D then Parsed (JArr []) r'
                         else parse_elements f r []
            | [] => SyntaxError
            end
          else if c =? 0x22 then
            match parse_chars r [] with
            | Some (str, r') => Parsed (JStr str) r'
            | None => SyntaxError
            end
          else if (c =? 0x2D) || isDigit c then
            match parse_number (c :: r) with
            | Some (n, r') => Parsed (JNum n) r'
            | None => SyntaxError
            end
          else parse_literal (c :: r)
      end
  end
with parse_elements (fuel : nat) (s : jsstring) (acc : list json) : parsed :=
  match fuel with
  | O => OutOfFuel
  | S f =>
      match parse_value f s with
      | Parsed v r =>
          match skip_ws r with
          | d :: r' =>
              if d =? 0x2C then parse_elements f r' (v :: acc)
              else if d =? 0x5D then Parsed (JArr (rev (v :: acc))) r'
              else SyntaxError
          | [] => SyntaxError
          end
      | SyntaxError => SyntaxError
      | OutOfFuel => OutOfFuel
      end
  end
with parse_members (fuel : nat) (s : jsstring) (acc : list (jsstring * json)) : parsed :=
  match fuel with
  | O => OutOfFuel
  | S f =>
      match skip_ws s with
      | q :: r =>
          if q =? 0x22 then
            match parse_chars r [] with
            | Some (k, r1) =>
                match skip_ws r1 with
                | c :: r2 =>
                    if c =? 0x3A then
                      match parse_value f r2 with
                      | Parsed v r3 =>
                          match skip_ws r3 with
                          | d :: r4 =>
                              if d =? 0x2C then parse_members f r4 ((k, v) :: acc)
                              else if d =? 0x7D
                                   then Parsed (JObj (rev ((k, v) :: acc))) r4
                              else SyntaxError
                          | [] => SyntaxError
                          end
                      | SyntaxError => SyntaxError
                      | OutOfFuel => OutOfFuel
                      end
                    else SyntaxError
                | [] => SyntaxError
                end
            | None => SyntaxError
            end
          else SyntaxError
      | [] => SyntaxError
      end
  end.

(** The outcome of [JSON.parse(text)]: the value, or a thrown SyntaxError. *)
Inductive parse_outcome :=
| Value (v : json)
| Throws.

Definition JSON_parse (text : jsstring) : parse_outcome :=
  match parse_value (2 * length text + 1) text with
  | Parsed v rest =>
      match skip_ws rest with
      | [] => Value v
      | _ :: _ => Throws
      end
  | SyntaxError => Throws
  | OutOfFuel => Throws
  end.

(** [JSON.stringify] on a boolean. *)
Definition JSON_stringify_bool (b : bool) : jsstring :=
  if b then js "true" else js "false".

(** *** [JSON.stringify]

    On the values [JSON.parse] returns, without replacer or indentation. *)

(** The decimal digits of a non-negative integer. *)
Definition decimal (z : Z) : jsstring :=
  js (NilZero.string_of_uint (N.to_uint (Z.to_N z))).

(** [10^p <= n / d], for positive [n] and [d]. *)
Definition reaches10 (n d p : Z) : bool :=
  (if 0 <=? p then d * 10 ^ p <=? n else d <=? n * 10 ^ (- p))%Z.

(** [floor (log10 (n / d))], for positive [n] and [d]: an estimate from
    the binary logarithm, off by one at most, then set right. *)
Definition floor_log10 (n d : Z) : Z :=
  (let l0 := Z.log2 n - Z.log2 d in
   let p0 := (l0 * 1233) / 4096 in
   if reaches10 n d (p0 + 2) then p0 + 2
   else if reaches10 n d (p0 + 1) then p0 + 1
   else if reaches10 n d p0 then p0
   else if reaches10 n d (p0 - 1) then p0 - 1
   else p0 - 2)%Z.

(** [s * 10^u] as a fraction, and the binary64 it rounds to. *)
Definition of_decimal (s u : Z) : number :=
  (if 0 <=? u then nearest false (s * 10 ^ u) 1
   else nearest false s (10 ^ (- u)))%Z.

Fixpoint strip_zeros (fuel : nat) (s u : Z) : Z * Z :=
  match fuel with
  | O => (s, u)
  | S f => if ((s mod 10 =? 0) && (0 <? s))%Z
           then strip_zeros f (s / 10)%Z (u + 1)%Z
           else (s, u)
  end.

(** The shortest decimal [s * 10^u] that rounds to the positive binary64
    [m * 2^e], the nearest to it when two are as short: with [k] digits
    the candidates are the two [k]-digit decimals around the value. *)
Fixpoint shortest (ks : list Z) (m e : Z) (p : Z) : Z * Z :=
  (let n := if 0 <=? e then m * 2 ^ e else m in
   let d := if 0 <=? e then 1 else 2 ^ (- e) in
   match ks with
   | [] => (0, 0)
   | k :: ks' =>
       let u := p + 1 - k in
       let lo := if 0 <=? u then n / (d * 10 ^ u) else (n * 10 ^ (- u)) / d in
       let hi := lo + 1 in
       let lo_ok := match of_decimal lo u with
                    | Finite _ m' e' => (m' =? m) && (e' =? e)
                    | _ => false
                    end in
       let hi_ok := match of_decimal hi u with
                    | Finite _ m' e' => (m' =? m) && (e' =? e)
                    | _ => false
                    end in
       (* twice the value against lo + hi, both over 10^u *)
       let twice := if 0 <=? u then (2 * n, d * 10 ^ u)
                    else (2 * n * 10 ^ (- u), d) in
       let below := fst twice <? (lo + hi) * snd twice in
       let level := fst twice =? (lo + hi) * snd twice in
       if lo_ok && hi_ok
       then if below then (lo, u)
            else if level then (if Z.even lo then (lo, u) else (hi, u))
            else (hi, u)
       else if lo_ok then (lo, u)
       else if hi_ok then (hi, u)
       else shortest ks' m e p
   end)%Z.

Definition zeros (n : Z) : jsstring := repeat 0x30 (Z.to_nat n).

(** [Number::toString] in radix 10, on a finite non-zero magnitude. *)
Definition magnitude_text (m e : Z) : jsstring :=
  (let n0 := if 0 <=? e then m * 2 ^ e else m in
   let d0 := if 0 <=? e then 1 else 2 ^ (- e) in
   let p := floor_log10 n0 d0 in
   let '(s, u) := shortest [1;2;3;4;5;6;7;8;9;10;11;12;13;14;15;16;17] m e p in
   let '(s, u) := strip_zeros 20 s u in
   let ds := decimal s in
   let k := Z.of_nat (length ds) in
   let n := u + k in
   if (k <=? n) && (n <=? 21) then ds ++ zeros (n - k)
   else if (0 <? n) && (n <=? 21)
   then take (Z.to_nat n) ds ++ js "." ++ drop (Z.to_nat n) ds
   else if (-6 <? n) && (n <=? 0)
   then js "0." ++ zeros (- n) ++ ds
   else
     let x := n - 1 in
     let sign := if 0 <=? x then js "+" else js "-" in
     if k =? 1 then ds ++ js "e" ++ sign ++ decimal (Z.abs x)
     else take 1 ds ++ js "." ++ drop 1 ds ++ js "e" ++ sign ++ decimal (Z.abs x))%Z.

(** A number in [JSON.stringify]: a finite one by [Number::toString],
    anything else as [null]. *)
Definition number_text (x : number) : jsstring :=
  match x with
  | Zero _ => js "0"
  | Finite neg m e => (if neg then js "-" else []) ++ magnitude_text m e
  | Infinite _ => js "null"
  end.

Definition hexdigit (d : N) : codeunit :=
  if d <? 10 then 0x30 + d else 0x61 + (d - 10).

(** [\uXXXX], in lower-case hexadecimal. *)
Definition unicode_escape (c : codeunit) : jsstring :=
  [0x5C; 0x75; hexdigit (c / 4096 mod 16); hexdigit (c / 256 mod 16);
   hexdigit (c / 16 mod 16); hexdigit (c mod 16)].

Definition isHighSurrogate (c : codeunit) : bool := (0xD800 <=? c) && (c <=? 0xDBFF).
Definition isLowSurrogate (c : codeunit) : bool := (0xDC00 <=? c) && (c <=? 0xDFFF).

Fixpoint quote_chars (s : jsstring) : jsstring :=
  match s with
  | [] => []
  | c :: r =>
      if c =? 0x08 then [0x5C; 0x62] ++ quote_chars r
      else if c =? 0x09 then [0x5C; 0x74] ++ quote_chars r
      else if c =? 0x0A then [0x5C; 0x6E] ++ quote_chars r
      else if c =? 0x0C then [0x5C; 0x66] ++ quote_chars r
      else if c =? 0x0D then [0x5C; 0x72] ++ quote_chars r
      else if c =? 0x22 then [0x5C; 0x22] ++ quote_chars r
      else if c =? 0x5C then [0x5C; 0x5C] ++ quote_chars r
      else if c <? 0x20 then unicode_escape c ++ quote_chars r
      else if isHighSurrogate c then
        match r with
        | d :: r' =>
            if isLowSurrogate d then c :: d :: quote_chars r'
            else unicode_escape c ++ quote_chars r
        | [] => unicode_escape c
        end
      else if isLowSurrogate c then unicode_escape c ++ quote_chars r
      else c :: quote_chars r
  end.

(** [QuoteJSONString]. *)
Definition QuoteJSONString (s : jsstring) : jsstring :=
  [0x22] ++ quote_chars s ++ [0x22].

(** The array index a key is, if it is one: decimal digits without a
    leading zero, below [2^32 - 1]. *)
Definition array_index (k : jsstring) : option N :=
  match k with
  | [] => None
  | c :: r =>
      if forallb isDigit k
         && (negb (c =? 0x30) || match r with [] => true | _ => false end)
         && (length k <=? 10)%nat
      then let v := fold_left (fun a d => a * 10 + (d - 0x30)) k 0 in
           if v <? 4294967295 then Some v else None
      else None
  end.

(** Defining a property on the object under construction: a key already
    there keeps its place and takes the new value. *)
Fixpoint define_property {A} (k : jsstring) (v : A) (ps : list (jsstring * A))
    : list (jsstring * A) :=
  match ps with
  | [] => [(k, v)]
  | (k', v') :: r => if eqb k k' then (k, v) :: r
                     else (k', v') :: define_property k v r
  end.

Fixpoint insert_index {A} (i : N) (p : jsstring * A) (ps : list (N * (jsstring * A)))
    : list (N * (jsstring * A)) :=
  match ps with
  | [] => [(i, p)]
  | (j, q) :: r => if i <? j then (i, p) :: (j, q) :: r
                   else (j, q) :: insert_index i p r
  end.

(** The own properties of the object [JSON.parse] builds from the members
    [ms], in the order [JSON.stringify] visits them: array indices in
    ascending order, then the other keys in order of creation. *)
Definition own_properties {A} (ms : list (jsstring * A)) : list (jsstring * A) :=
  let ps := fold_left (fun acc '(k, v) => define_property k v acc) ms [] in
  let indexed :=
    fold_left (fun acc p => match array_index (fst p) with
                            | Some i => insert_index i p acc
                            | None => acc
                            end) ps [] in
  map snd indexed
  ++ List.filter (fun p => match array_index (fst p) with
                           | Some _ => false
                           | None => true
                           end) ps.

Fixpoint join_comma (parts : list jsstring) : jsstring :=
  match parts with
  | [] => []
  | [p] => p
  | p :: r => p ++ [0x2C] ++ join_comma r
  end.

Fixpoint JSON_stringify (v : json) : jsstring :=
  match v with
  | JNull => js "null"
  | JBool b => JSON_stringify_bool b
  | JNum x => number_text x
  | JStr s => QuoteJSONString s
  | JArr elems => [0x5B] ++ join_comma (map JSON_stringify elems) ++ [0x5D]
  | JObj members =>
      [0x7B]
      ++ join_comma
           (map (fun '(k, text) => QuoteJSONString k ++ [0x3A] ++ text)
              (own_properties
                 (map (fun '(k, x) => (k, JSON_stringify x)) members)))
      ++ [0x7D]
  end.

(** [ToBoolean] on such a value: what [v ? ... : ...], [!v] and a
    boolean parameter of the DOM make of it. *)
Definition truthy_value (v : json) : bool :=
  match v with
  | JNull => false
  | JBool b => b
  | JNum (Zero _) => false
  | JNum _ => true
  | JStr s => truthy s
  | JArr _ | JObj _ => true
  end.

End Json.

Import Json.


(** ** The platform

    [toLowerCase] is [String.prototype.toLowerCase]; [isURL s] says that
    zod's [.url()] check accepts [s] (the URL parser does not throw). *)

Record Platform := {
  toLowerCase : jsstring -> jsstring;
  isURL : jsstring -> bool
}.

(** ** The network, as a caller of [fetch] sees it *)

Module Net.

(** A response: its status line and the text of its body. *)
Record Response := { status : N; body : jsstring }.

(** [res.ok]: the status is in the range 200-299. *)
Definition ok (res : Response) : bool :=
  ((200 <=? status res) && (status res <=? 299))%N.

(** [res.json()]: the body text through [JSON.parse]. *)
Definition json_of (res : Response) : parse_outcome := JSON_parse (body res).

(** [fetch(url)] rejects (no response arrived) or resolves to a response,
    whatever its status. *)
Inductive FetchOutcome :=
| NetworkError
| Responded (res : Response).

End Net.

Import Net.

(** ** Promises, as far as [Promise.allSettled] needs them *)

Module Promise.

Inductive Reason :=
| FetchFailed        (* fetch rejected *)
| ApiRequestFailed   (* new Error('API request failed') *)
| BodyNotJson        (* res.json() rejected *)
| ZodError.          (* TokenSchema.parse threw *)

Inductive Settled (A : Type) :=
| Fulfilled (value : A)
| Rejected (reason : Reason).
Arguments Fulfilled {A} value.
Arguments Rejected {A} reason.

Definition isFulfilled {A} (r : Settled A) : bool :=
  match r with Fulfilled _ => true | Rejected _ => false end.

Definition isRejected {A} (r : Settled A) : bool :=
  match r with Fulfilled _ => false | Rejected _ => true end.

Definition value_of {A} (r : Settled A) : option A :=
  match r with Fulfilled v => Some v | Rejected _ => None end.

(** One completion: promise [i] settles and its outcome is stored in slot
    [i] of the values array. *)
Definition settle {A} (ps : list (Settled A))
    (values : list (option (Settled A))) (i : nat) : list (option (Settled A)) :=
  match ps !! i with
  | Some r => <[i := Some r]> values
  | None => values
  end.

(** [Promise.allSettled(ps)] under the completion order [order]: the
    values array once every slot is filled, [None] while some promise is
    still pending. *)
Definition allSettled {A} (ps : list (Settled A)) (order : list nat)
    : option (list (Settled A)) :=
  mapM id (foldl (settle ps) (replicate (length ps) None) order).

End Promise.

Import Promise.

(** ** [TokenSchema] *)

Module Schema.

Inductive Sentiment :=
| Bullish | Bearish | Neutral | StrongBullish | StrongBearish.

Definition sentiment_values : list (jsstring * Sentiment) :=
  [ (js "bullish", Bullish); (js "bearish", Bearish); (js "neutral", Neutral);
    (js "strong bullish", StrongBullish); (js "strong bearish", StrongBearish) ].

Record TokenInfo := {
  id : jsstring;
  name : jsstring;
  symbol : jsstring;
  image : jsstring;
  summary : jsstring;
  price : option number;
  market_cap : option number;
  price_change_24h : option number;
  volume_24h : option number;
  circulating_supply : option number;
  sentiment : Sentiment
}.

(** [z.string()] on a property read. *)
Definition z_string (v : option json) : option jsstring :=
  match v with
  | Some (JStr s) => Some s
  | _ => None
  end.

(** [z.string().url()]. *)
Definition z_string_url (P : Platform) (v : option json) : option jsstring :=
  match z_string v with
  | Some s => if isURL P s then Some s else None
  | None => None
  end.

(** [z.number().optional()]: [undefined] passes, [null] does not; a
    number passes whichever it is, an infinite one included, as in zod 3
    (the sources do not say which zod is installed). *)
Definition z_number_optional (v : option json) : option (option number) :=
  match v with
  | None => Some None
  | Some (JNum n) => Some (Some n)
  | Some _ => None
  end.

(** [z.enum([...])]. *)
Definition z_enum (v : option json) : option Sentiment :=
  match v with
  | Some (JStr s) =>
      snd <$> List.find (fun p => JS.eqb s (fst p)) sentiment_values
  | _ => None
  end.

(** [TokenSchema.parse(data)]: the validated record, or [None] where zod
    throws.  Keys outside the schema are dropped. *)
Definition TokenSchema_parse (P : Platform) (data : json) : option TokenInfo :=
  match data with
  | JObj _ =>
      i ← z_string (get "id" data);
      n ← z_string (get "name" data);
      sy ← z_string (get "symbol" data);
      im ← z_string_url P (get "image" data);
      su ← z_string (get "summary" data);
      pr ← z_number_optional (get "price" data);
      mc ← z_number_optional (get "market_cap" data);
      pc ← z_number_optional (get "price_change_24h" data);
      vo ← z_number_optional (get "volume_24h" data);
      cs ← z_number_optional (get "circulating_supply" data);
      se ← z_enum (get "sentiment" data);
      Some {| id := i; name := n; symbol := sy; image := im; summary := su;
              price := pr; market_cap := mc; price_change_24h := pc;
              volume_24h := vo; circulating_supply := cs; sentiment := se |}
  | _ => None
  end.

End Schema.

Import Schema.

(** ** The page: [Home] *)

Module Page.

(** The state [handleSubmit] reads and writes, the toasts on screen, and
    the URLs handed to [fetch] so far. *)
Record State := {
  tokens : list jsstring;
  results : list TokenInfo;
  loading : bool;
  toasts : list jsstring;
  requests : list jsstring
}.

(** What a submission meets outside the page: the outcome of its [i]-th
    request, and the order in which its requests complete. *)
Record World := {
  respond : nat -> jsstring -> FetchOutcome;
  completion : list nat
}.

Definition initial : State :=
  {| tokens := [empty]; results := []; loading := false;
     toasts := []; requests := [] |}.

(** [tokens.filter(t => t.trim())] *)
Definition validTokens (tokens : list jsstring) : list jsstring :=
  List.filter (fun t => truthy (trim t)) tokens.

(** [`/api/research?token=${token.toLowerCase()}`] *)
Definition request_url (P : Platform) (token : jsstring) : jsstring :=
  js "/api/research?token=" ++ toLowerCase P token.

(** The chain hung on one [fetch]:
    [.then(res => { if (!res.ok) throw ...; return res.json() })]
    [.then(data => TokenSchema.parse(data))]. *)
Definition research (P : Platform) (o : FetchOutcome) : Settled TokenInfo :=
  match o with
  | NetworkError => Rejected FetchFailed
  | Responded res =>
      if negb (ok res) then Rejected ApiRequestFailed
      else match json_of res with
           | Throws => Rejected BodyNotJson
           | Value data =>
               match TokenSchema_parse P data with
               | Some t => Fulfilled t
               | None => Rejected ZodError
               end
           end
  end.

(** [`Failed to fetch ${failedCount} token${failedCount > 1 ? 's' : ''}`] *)
Definition failed_message (failedCount : nat) : jsstring :=
  js "Failed to fetch " ++ of_nat failedCount ++ js " token"
     ++ (if 1 <? failedCount then js "s" else empty).

(** [handleSubmit].  Nothing inside its [try] throws synchronously, so the
    [catch] branch does not appear; the [finally] clears [loading] on both
    exits.  While [allSettled] is pending the handler is parked at its
    [await] and the state is the one it left there. *)
Definition handleSubmit (P : Platform) (w : World) (st : State) : State :=
  let valid := validTokens (tokens st) in
  if (length valid =? 0)%nat then
    {| tokens := tokens st; results := []; loading := false;
       toasts := [js "Please enter at least one token"];
       requests := requests st |}
  else
    let urls := map (request_url P) valid in
    let promises := imap (fun i url => research P (respond w i url)) urls in
    let sent := requests st ++ urls in
    match allSettled promises (completion w) with
    | None =>
        {| tokens := tokens st; results := []; loading := true;
           toasts := []; requests := sent |}
    | Some settled =>
        let successfulResults := omap value_of (List.filter isFulfilled settled) in
        let failedCount := length (List.filter isRejected settled) in
        {| tokens := tokens st;
           results := successfulResults;
           loading := false;
           toasts := if (0 <? failedCount)%nat then [failed_message failedCount] else [];
           requests := sent |}
    end.

(** *** The token fields *)

(** [Array.prototype.filter] with the index passed to the callback. *)
Fixpoint filteri {A} (f : A -> nat -> bool) (i : nat) (l : list A) : list A :=
  match l with
  | [] => []
  | x :: r => if f x i then x :: filteri f (S i) r else filteri f (S i) r
  end.

(** [handleTokenChange]: [updated[index] = value] on a copy.  Writing at
    [length] appends; beyond it the array would get holes and stop being a
    [string[]], which is [None] here.  The fields only ever pass their own
    index. *)
Definition handleTokenChange (tokens : list jsstring) (index : nat)
    (value : jsstring) : option (list jsstring) :=
  if (index <? length tokens)%nat then Some (<[index := value]> tokens)
  else if (index =? length tokens)%nat then Some (tokens ++ [value])
  else None.

Definition addTokenField (tokens : list jsstring) : list jsstring :=
  tokens ++ [empty].

Definition removeTokenField (tokens : list jsstring) (index : nat) : list jsstring :=
  if (1 <? length tokens)%nat
  then filteri (fun _ i => negb (i =? index)%nat) 0 tokens
  else tokens.

(** What the rendered fields can do to the list: field [idx] exists, so
    [idx] is below the length.  (The last field hides its remove button
    when it is alone; the step relation allows the click all the same.) *)
Inductive field_step : list jsstring -> list jsstring -> Prop :=
| step_change tokens idx value tokens' :
    (idx < length tokens)%nat ->
    handleTokenChange tokens idx value = Some tokens' ->
    field_step tokens tokens'
| step_add tokens :
    field_step tokens (addTokenField tokens)
| step_remove tokens idx :
    (idx < length tokens)%nat ->
    field_step tokens (removeTokenField tokens idx).

(** The lists the page can hold: [useState([''])], then any steps. *)
Inductive reachable : list jsstring -> Prop :=
| reach_init : reachable (tokens initial)
| reach_step tokens tokens' :
    reachable tokens -> field_step tokens tokens' -> reachable tokens'.

End Page.

Import Page.

(** ** The dark-mode flag *)

Module Dark.

Definition KEY : jsstring := js "cryptoAgentDarkMode".

Inductive StorageOp :=
| GetItem (key : jsstring)
| SetItem (key value : jsstring).

(** [localStorage] with a log of the calls made on it, and whether the
    root element carries the class [dark]. *)
Record Browser := {
  localStorage : gmap jsstring jsstring;
  calls : list StorageOp;
  darkClass : bool
}.

Definition getItem (key : jsstring) (b : Browser) : option jsstring * Browser :=
  (localStorage b !! key,
   {| localStorage := localStorage b; calls := calls b ++ [GetItem key];
      darkClass := darkClass b |}).

Definition setItem (key value : jsstring) (b : Browser) : Browser :=
  {| localStorage := <[key := value]> (localStorage b);
     calls := calls b ++ [SetItem key value];
     darkClass := darkClass b |}.

Definition classList_toggle_dark (force : bool) (b : Browser) : Browser :=
  {| localStorage := localStorage b; calls := calls b; darkClass := force |}.

(** [savedDark ? JSON.parse(savedDark) : false], the argument of [setDark]
    in the first effect. *)
Definition savedDark_value (savedDark : option jsstring) : parse_outcome :=
  match savedDark with
  | Some text => if truthy text then JSON_parse text else Value (JBool false)
  | None => Value (JBool false)
  end.

(** The flag [dark] is declared a boolean, and holds whatever [setDark]
    was given: [JSON.parse] hands it any JSON value.  A boolean flag is the
    value [JBool] of it. *)
Coercion JBool : bool >-> json.

(** The second effect, run for the value [dark]: the store gets
    [JSON.stringify(dark)], and [classList.toggle] takes its second
    argument as a boolean. *)
Definition persistDark (dark : json) (b : Browser) : Browser :=
  classList_toggle_dark (truthy_value dark) (setItem KEY (JSON_stringify dark) b).

Inductive Mount :=
| Mounted (dark : json) (b : Browser)   (* the page is up, with this flag *)
| Crashed (b : Browser).                (* the first effect threw *)

(** Mounting [Home]: [dark] starts [false]; the first effect reads the
    store and calls [setDark]; the second effect runs for the initial
    [false], and again after the re-render when [setDark] was given
    anything but [false].  When the first effect throws, the error leaves
    the component and what React does with it is not followed. *)
Definition mount (b : Browser) : Mount :=
  let '(savedDark, b1) := getItem KEY b in
  match savedDark_value savedDark with
  | Throws => Crashed b1
  | Value v =>
      let b2 := persistDark false b1 in
      match v with
      | JBool false => Mounted v b2
      | _ => Mounted v (persistDark v b2)
      end
  end.

(** [onClick={() => setDark(!dark)}] and the second effect that follows. *)
Definition toggle (dark : json) (b : Browser) : bool * Browser :=
  (negb (truthy_value dark), persistDark (negb (truthy_value dark)) b).

(** Reloading the page: the store survives, the document is new. *)
Definition reload (b : Browser) : Browser :=
  {| localStorage := localStorage b; calls := []; darkClass := false |}.

Definition browser_of (m : Mount) : Browser :=
  match m with Mounted _ b | Crashed b => b end.

Definition reads (ops : list StorageOp) : list jsstring :=
  omap (fun op => match op with GetItem k => Some k | SetItem _ _ => None end) ops.

End Dark.

Import Dark.

(** ** The proxy route: [GET] in [app/api/research/route.ts] *)

Module Route.

(** [req.nextUrl.searchParams], decoded, in URL order. *)
Record NextRequest := { searchParams : list (jsstring * jsstring) }.

(** [URLSearchParams.get]: the first value under the name, or [null]. *)
Fixpoint searchParams_get (name : jsstring) (ps : list (jsstring * jsstring))
    : option jsstring :=
  match ps with
  | [] => None
  | (k, v) :: r => if JS.eqb k name then Some v else searchParams_get name r
  end.

Definition UPSTREAM : jsstring :=
  js "https://crypto-research-agent-api-yvc3.onrender.com/research?token=".

Inductive Thrown :=
| UpstreamUnreachable   (* await fetch(...) rejected *)
| UpstreamNotJson.      (* await res.json() rejected *)

Inductive Reply :=
| NextResponse_json (status : N) (data : json)
| Uncaught (e : Thrown).

Definition token_required : json :=
  JObj [(js "error", JStr (js "Token is required"))].

(** The handler: its reply, and the URLs it fetched. *)
Definition GET (upstream : jsstring -> FetchOutcome) (req : NextRequest)
    : Reply * list jsstring :=
  let token := searchParams_get (js "token") (searchParams req) in
  match token with
  | None => (NextResponse_json 400 token_required, [])
  | Some tok =>
      if negb (truthy tok) then (NextResponse_json 400 token_required, [])
      else
        let url := UPSTREAM ++ tok in
        match upstream url with
        | NetworkError => (Uncaught UpstreamUnreachable, [url])
        | Responded res =>
            match json_of res with
            | Throws => (Uncaught UpstreamNotJson, [url])
            | Value data => (NextResponse_json 200 data, [url])
            end
        end
  end.

(** The body of a reply as it is sent: [NextResponse.json] serialises its
    argument with [JSON.stringify]. *)
Definition body_text (r : Reply) : option jsstring :=
  match r with
  | NextResponse_json _ data => Some (JSON_stringify data)
  | Uncaught _ => None
  end.

End Route.

Import Route.

(** ** What a fetched URL delivers

    [fetch] hands its string to the URL parser, and the handler on the
    other side reads the query of the parsed URL through
    [URLSearchParams].  Written out here for a string whose part before
    the first [?] is a plain path, or an origin and a plain path, as in
    both templates of the repository: the input as scalar values, C0
    controls and spaces stripped at both ends, TAB, LF and CR removed, the
    fragment cut off, the query percent-encoded as UTF-8; then the
    [application/x-www-form-urlencoded] parser on that query. *)

Module Url.

Local Open Scope N_scope.

(** A JavaScript string as scalar values (a USVString): a surrogate pair
    is one code point, a lone surrogate is replaced by U+FFFD. *)
Fixpoint scalar_values (s : jsstring) : list N :=
  match s with
  | [] => []
  | c :: r =>
      if isHighSurrogate c then
        match r with
        | d :: r' =>
            if isLowSurrogate d
            then (0x10000 + (c - 0xD800) * 0x400 + (d - 0xDC00)) :: scalar_values r'
            else 0xFFFD :: scalar_values r
        | [] => [0xFFFD]
        end
      else if isLowSurrogate c then 0xFFFD :: scalar_values r
      else c :: scalar_values r
  end.

Definition utf16_encode (cp : N) : jsstring :=
  if cp <? 0x10000 then [cp]
  else [0xD800 + (cp - 0x10000) / 0x400; 0xDC00 + (cp - 0x10000) mod 0x400].

Definition utf8_encode (cp : N) : list N :=
  if cp <? 0x80 then [cp]
  else if cp <? 0x800 then [0xC0 + cp / 64; 0x80 + cp mod 64]
  else if cp <? 0x10000
  then [0xE0 + cp / 4096; 0x80 + (cp / 64) mod 64; 0x80 + cp mod 64]
  else [0xF0 + cp / 262144; 0x80 + (cp / 4096) mod 64;
        0x80 + (cp / 64) mod 64; 0x80 + cp mod 64].

(** The UTF-8 decoder between two code points has no state; inside one it
    holds the bits read, the bytes still needed and the bounds of the
    next byte. *)
Record Pending := {
  bits : N;
  needed : nat;
  lower : N;
  upper : N
}.

(** A byte met between two code points. *)
Definition lead_byte (b : N) : list N * option Pending :=
  if b <=? 0x7F then ([b], None)
  else if (0xC2 <=? b) && (b <=? 0xDF)
  then ([], Some {| bits := b - 0xC0; needed := 1; lower := 0x80; upper := 0xBF |})
  else if (0xE0 <=? b) && (b <=? 0xEF)
  then ([], Some {| bits := b - 0xE0; needed := 2;
                    lower := if b =? 0xE0 then 0xA0 else 0x80;
                    upper := if b =? 0xED then 0x9F else 0xBF |})
  else if (0xF0 <=? b) && (b <=? 0xF4)
  then ([], Some {| bits := b - 0xF0; needed := 3;
                    lower := if b =? 0xF0 then 0x90 else 0x80;
                    upper := if b =? 0xF4 then 0x8F else 0xBF |})
  else ([0xFFFD], None).

(** UTF-8 decode without BOM, errors replaced by U+FFFD; a byte that
    breaks a sequence is read again as a lead byte. *)
Fixpoint utf8_decode (st : option Pending) (bytes : list N) : list N :=
  match bytes with
  | [] => match st with None => [] | Some _ => [0xFFFD] end
  | b :: r =>
      match st with
      | None => fst (lead_byte b) ++ utf8_decode (snd (lead_byte b)) r
      | Some p =>
          if (lower p <=? b) && (b <=? upper p) then
            let bits' := bits p * 64 + (b - 0x80) in
            match needed p with
            | S (S n) =>
                utf8_decode (Some {| bits := bits'; needed := S n;
                                     lower := 0x80; upper := 0xBF |}) r
            | _ => bits' :: utf8_decode None r
            end
          else 0xFFFD :: fst (lead_byte b) ++ utf8_decode (snd (lead_byte b)) r
      end
  end.

Definition isC0ControlOrSpace (c : N) : bool := c <=? 0x20.

Definition isTabOrNewline (c : N) : bool := (c =? 0x09) || (c =? 0x0A) || (c =? 0x0D).

Fixpoint strip_leading (s : list N) : list N :=
  match s with
  | c :: r => if isC0ControlOrSpace c then strip_leading r else s
  | [] => []
  end.

Definition strip_trailing (s : list N) : list N :=
  rev (strip_leading (rev s)).

Definition strip (s : list N) : list N :=
  strip_trailing (strip_leading s).

Fixpoint before_hash (s : list N) : list N :=
  match s with
  | [] => []
  | c :: r => if c =? 0x23 then [] else c :: before_hash r
  end.

Fixpoint after_question (s : list N) : option (list N) :=
  match s with
  | [] => None
  | c :: r => if c =? 0x3F then Some r else after_question r
  end.

(** The special-query percent-encode set: C0 controls, everything above
    [~], space, the double quote, [#], [<], [>] and the single quote. *)
Definition in_query_encode_set (b : N) : bool :=
  (b <=? 0x1F) || (0x7E <? b) || (b =? 0x20) || (b =? 0x22) || (b =? 0x23)
  || (b =? 0x3C) || (b =? 0x3E) || (b =? 0x27).

Definition upper_hexdigit (d : N) : N :=
  if d <? 10 then 0x30 + d else 0x41 + (d - 10).

Definition percent_encode_byte (b : N) : list N :=
  if in_query_encode_set b
  then [0x25; upper_hexdigit (b / 16); upper_hexdigit (b mod 16)]
  else [b].

Definition percent_encode_query (cp : N) : list N :=
  flat_map percent_encode_byte (utf8_encode cp).

(** The query of the parsed URL, as bytes; [None] when there is no [?]. *)
Definition url_query (input : jsstring) : option (list N) :=
  flat_map percent_encode_query
    <$> after_question
          (before_hash
             (List.filter (fun c => negb (isTabOrNewline c))
                (strip (scalar_values input)))).

Fixpoint percent_decode (bs : list N) : list N :=
  match bs with
  | [] => []
  | b :: r =>
      if b =? 0x25 then
        match r with
        | h1 :: h2 :: r' =>
            match hexval h1, hexval h2 with
            | Some x, Some y => (x * 16 + y) :: percent_decode r'
            | _, _ => b :: percent_decode r
            end
        | _ => b :: percent_decode r
        end
      else b :: percent_decode r
  end.

(** The sequences between the separators; [cur] is the current one,
    reversed. *)
Fixpoint split_on (sep : N) (bs : list N) (cur : list N) : list (list N) :=
  match bs with
  | [] => [rev cur]
  | b :: r => if b =? sep then rev cur :: split_on sep r []
              else split_on sep r (b :: cur)
  end.

(** Name and value of one sequence: around its first [=], if any. *)
Fixpoint name_value (bs : list N) : list N * list N :=
  match bs with
  | [] => ([], [])
  | b :: r => if b =? 0x3D then ([], r)
              else let '(name, value) := name_value r in (b :: name, value)
  end.

Definition decode_component (bs : list N) : jsstring :=
  flat_map utf16_encode
    (utf8_decode None
       (percent_decode (map (fun b => if b =? 0x2B then 0x20 else b) bs))).

(** The [application/x-www-form-urlencoded] parser. *)
Definition urlencoded_parse (bs : list N) : list (jsstring * jsstring) :=
  map (fun seq => (decode_component (fst (name_value seq)),
                   decode_component (snd (name_value seq))))
      (List.filter (fun seq => match seq with [] => false | _ => true end)
         (split_on 0x26 bs [])).

(** [searchParams] of the URL that [input] parses to. *)
Definition searchParams_of (input : jsstring) : list (jsstring * jsstring) :=
  match url_query input with
  | Some q => urlencoded_parse q
  | None => []
  end.

(** The request a handler receives when [input] is fetched. *)
Definition request_for (input : jsstring) : NextRequest :=
  {| searchParams := searchParams_of input |}.

(** The [token] parameter a handler reads off a fetch of [input]. *)
Definition token_received (input : jsstring) : option jsstring :=
  searchParams_get (js "token") (searchParams (request_for input)).

(** The code units a query value can hold unencoded without a change of
    meaning: ASCII but for [#] (starts the fragment), [&] (ends the
    parameter), [+] (read as a space) and [%] (starts an escape). *)
Definition query_safe (c : codeunit) : bool :=
  (c <? 0x80)
  && negb ((c =? 0x23) || (c =? 0x26) || (c =? 0x2B) || (c =? 0x25)).

(** The code units of a plain path: printable ASCII, no space, no [?]
    and no [#]. *)
Definition path_char (c : codeunit) : bool :=
  (0x20 <? c) && (c <? 0x7F) && negb (c =? 0x3F) && negb (c =? 0x23).

(** What is left of a value of [query_safe] code units written at the end
    of a URL: what stands at its end is stripped up to the last code unit
    above the space, and TAB, LF and CR go wherever they stand. *)
Definition as_delivered (s : jsstring) : jsstring :=
  List.filter (fun c => negb (isTabOrNewline c)) (strip_trailing s).

(** What the encoder writes for a [query_safe] code unit holds neither
    [&] nor [+], and decodes to that code unit: a check to run on each
    of them. *)
Definition encoded_plainly (c : N) : bool :=
  implb (query_safe c)
    (forallb (fun b => negb (b =? 0x26) && negb (b =? 0x2B))
       (percent_encode_byte c)
     && match percent_encode_byte c with
        | [b] => (b =? c) && negb (b =? 0x25)
        | [p; h1; h2] =>
            (p =? 0x25)
            && match hexval h1, hexval h2 with
               | Some x, Some y => x * 16 + y =? c
               | _, _ => false
               end
        | _ => false
        end).

End Url.

Import Url.

(** ** The vocabulary of the specification *)

Module Spec.

(** A request is successful when the transport completed, the status
    indicates success, and the JSON body conforms to the schema; this is
    the record it then yields. *)
Definition successful (P : Platform) (o : FetchOutcome) : option TokenInfo :=
  match o with
  | NetworkError => None
  | Responded res =>
      if ok res then
        match json_of res with
        | Value data => TokenSchema_parse P data
        | Throws => None
        end
      else None
  end.

Definition failed (P : Platform) (o : FetchOutcome) : bool :=
  match successful P o with Some _ => false | None => true end.

(** The outcomes of the requests of one submission, in the order the
    requests were issued. *)
Definition outcomes (P : Platform) (w : World) (tokens : list jsstring)
    : list FetchOutcome :=
  imap (fun i t => respond w i (request_url P t)) (validTokens tokens).

(** Every one of [n] requests settles at some point. *)
Definition all_settle (w : World) (n : nat) : Prop :=
  forall i, (i < n)%nat -> i ∈ completion w.

(** The notice shown for [n] failures: none when nothing failed. *)
Definition failure_notice (n : nat) : list jsstring :=
  match n with O => [] | S _ => [failed_message n] end.

(** Blank: empty, or white space only. *)
Definition blank (t : jsstring) : Prop := Forall (fun c => isWhiteSpace c = true) t.

(** The [sentiment] field is missing, or holds something outside the
    closed enumeration. *)
Definition sentiment_missing_or_unknown (data : json) : Prop :=
  get "sentiment" data = None
  \/ exists v, get "sentiment" data = Some v
              /\ forall s, s ∈ map fst sentiment_values -> v <> JStr s.

(** The [image] field is not a string that parses as a URL. *)
Definition image_not_url (P : Platform) (data : json) : Prop :=
  forall s, get "image" data = Some (JStr s) -> isURL P s = false.

(** Two different requests of a submission never get accepted responses
    with the same [id] field. *)
Definition distinct_response_ids (P : Platform) (w : World)
    (tokens : list jsstring) : Prop :=
  forall j k tj tk resj resk dj dk a b,
    j <> k ->
    validTokens tokens !! j = Some tj ->
    validTokens tokens !! k = Some tk ->
    respond w j (request_url P tj) = Responded resj ->
    respond w k (request_url P tk) = Responded resk ->
    ok resj = true ->
    ok resk = true ->
    json_of resj = Value dj ->
    json_of resk = Value dk ->
    TokenSchema_parse P dj = Some a ->
    TokenSchema_parse P dk = Some b ->
    get "id" dj <> get "id" dk.

(** The request carries a parameter of that name. *)
Definition carries (name : jsstring) (req : NextRequest) : Prop :=
  name ∈ map fst (searchParams req).

(** Lower-casing leaves white space at either end of a string in place. *)
Definition keeps_outer_whitespace (lower : jsstring -> jsstring) : Prop :=
  forall pre core post,
    blank pre -> blank post ->
    lower (pre ++ core ++ post) = pre ++ lower core ++ post.

(** A run of spaces. *)
Definition spaces (s : jsstring) : Prop := Forall (fun c => c = 0x20%N) s.

(** White space of the ASCII range: TAB, LF, VT, FF, CR and the space. *)
Definition ascii_blank (s : jsstring) : Prop :=
  Forall (fun c => isWhiteSpace c = true /\ (c <= 0x20)%N) s.

(** A value that can stand at the end of a URL as it is: [query_safe] code
    units, none of TAB, LF and CR, the last one above the space. *)
Definition query_plain (s : jsstring) : Prop :=
  Forall (fun c => query_safe c = true /\ isTabOrNewline c = false) s
  /\ exists body last, s = body ++ [last] /\ (0x20 < last)%N.

End Spec.

Import Spec.

(** ** A platform to run the model on

    Lower-cases A-Z and leaves every other code unit alone; takes for a URL
    any string that starts with [http://] or [https://]. *)

Module Demo.

Definition ascii_lower (s : jsstring) : jsstring :=
  map (fun c => if ((0x41 <=? c) && (c <=? 0x5A))%N then (c + 32)%N else c) s.

Definition has_http_scheme (s : jsstring) : bool :=
  match strip_prefix (js "https://") s, strip_prefix (js "http://") s with
  | None, None => false
  | _, _ => true
  end.

Definition platform : Platform :=
  {| toLowerCase := ascii_lower; isURL := has_http_scheme |}.

(** Single quotes stand for double quotes, to keep JSON texts readable. *)
Definition text (s : string) : jsstring :=
  map (fun c => if (c =? 0x27)%N then 0x22%N else c) (js s).

Definition bitcoin : jsstring :=
  text "{'id':'bitcoin','name':'Bitcoin','symbol':'btc','image':'https://img.example/btc.png','summary':'Steady.','price':64250.5,'sentiment':'bullish'}".

Definition ethereum : jsstring :=
  text "{'id':'ethereum','name':'Ethereum','symbol':'eth','image':'https://img.example/eth.png','summary':'Quiet.','sentiment':'neutral'}".

(** [ethereum] with a sentiment outside the enumeration. *)
Definition ethereum_hype : jsstring :=
  text "{'id':'ethereum','name':'Ethereum','symbol':'eth','image':'https://img.example/eth.png','summary':'Quiet.','sentiment':'moon'}".

(** A proxy that answers every request with [bitcoin], status 200. *)
Definition always_bitcoin : nat -> jsstring -> FetchOutcome :=
  fun _ _ => Responded {| status := 200; body := bitcoin |}.

(** A proxy that knows [btc] and [eth], answers 200 with a bad sentiment
    for [doge], and 500 for anything else. *)
Definition by_token : nat -> jsstring -> FetchOutcome :=
  fun _ url =>
    if JS.eqb url (js "/api/research?token=btc")
    then Responded {| status := 200; body := bitcoin |}
    else if JS.eqb url (js "/api/research?token=eth")
    then Responded {| status := 200; body := ethereum |}
    else if JS.eqb url (js "/api/research?token=doge")
    then Responded {| status := 200; body := ethereum_hype |}
    else Responded {| status := 500; body := text "{'error':'boom'}" |}.

(** The record [bitcoin] validates to, as a one-entry result set. *)
Definition shown_before : list TokenInfo :=
  match JSON_parse bitcoin with
  | Value data => option_list (TokenSchema_parse platform data)
  | Throws => []
  end.

Definition page (fields : list jsstring) : State :=
  {| tokens := fields; results := shown_before; loading := false;
     toasts := [js "an earlier notice"]; requests := [] |}.

(** Four fields, one of them blank; [doge] will fail the schema. *)
Definition four_fields : State := page [js "BTC"; js "  "; js "doge"; js "Eth"].

(** The last request completes first. *)
Definition out_of_order : World :=
  {| respond := by_token; completion := [2; 0; 1]%nat |}.

(** Nothing but white space: empty, spaces, TAB with NBSP. *)
Definition blank_fields : State := page [empty; js "   "; [0x09; 0xA0]%N].

(** The same token typed into two fields. *)
Definition same_twice : State := page [js "btc"; js "BTC"].

Definition in_order : World :=
  {| respond := by_token; completion := [0; 1]%nat |}.

(** A token typed with a space on either side. *)
Definition padded : State := page [js " BTC "].

Definition browser_with (stored : option jsstring) : Browser :=
  {| localStorage := match stored with
                     | Some v => {[ KEY := v ]}
                     | None => ∅
                     end;
     calls := []; darkClass := false |}.

End Demo.
(** ** What [Home] renders

    The parts of the returned tree that depend on the state: the rows of
    the token form with their buttons, the submit button, and the three
    blocks under the form (empty state, skeleton, results).  Of a card,
    what hangs on [token.sentiment]; the figures of a card, of the chart
    and of the table go through [toLocaleString] and [toFixed] and are
    left out. *)

Module View.

Inductive Button :=
| AddButton               (* onClick={addTokenField} *)
| RemoveButton (idx : nat).   (* onClick={() => removeTokenField(idx)} *)

(** One row of [tokens.map((token, idx) => ...)]. *)
Record FieldRow := {
  row_key : nat;
  input_value : jsstring;
  buttons : list Button
}.

Definition field_row (tokens : list jsstring) (idx : nat) (token : jsstring)
    : FieldRow :=
  {| row_key := idx;
     input_value := token;
     buttons :=
       if (idx =? length tokens - 1)%nat
       then AddButton :: (if (1 <? length tokens)%nat then [RemoveButton idx] else [])
       else [RemoveButton idx] |}.

Definition field_rows (tokens : list jsstring) : list FieldRow :=
  imap (field_row tokens) tokens.

(** What a click on a rendered button does to the list. *)
Definition click (b : Button) (tokens : list jsstring) : list jsstring :=
  match b with
  | AddButton => addTokenField tokens
  | RemoveButton idx => removeTokenField tokens idx
  end.

Inductive Icon := TrendingUpIcon | TrendingDownIcon.

(** The four places of [TokenCard] that test [token.sentiment === 'bullish']:
    the badge and its icon, the pill, the bar and its width. *)
Record SentimentLook := {
  badge_class : jsstring;
  badge_icon : Icon;
  pill_class : jsstring;
  bar_class : jsstring;
  bar_width : jsstring
}.

Definition sentiment_look (sentiment : jsstring) : SentimentLook :=
  let bullish := JS.eqb sentiment (js "bullish") in
  {| badge_class := if bullish then js "bg-green-500" else js "bg-red-500";
     badge_icon := if bullish then TrendingUpIcon else TrendingDownIcon;
     pill_class :=
       if bullish
       then js "bg-green-100 text-green-800 dark:bg-green-900/30 dark:text-green-300"
       else js "bg-red-100 text-red-800 dark:bg-red-900/30 dark:text-red-300";
     bar_class := if bullish then js "bg-green-500" else js "bg-red-500";
     bar_width := if bullish then js "75%" else js "25%" |}.

(** The string a validated [sentiment] is: zod's enum returns its input. *)
Definition sentiment_text (s : Sentiment) : jsstring :=
  match s with
  | Bullish => js "bullish"
  | Bearish => js "bearish"
  | Neutral => js "neutral"
  | StrongBullish => js "strong bullish"
  | StrongBearish => js "strong bearish"
  end.

(** [<TokenCard key={token.id} token={token} ... animationDelay: index * 100 ms>]. *)
Record Card := {
  card_key : jsstring;
  card_delay_ms : nat;
  card_image : jsstring;
  card_name : jsstring;
  card_symbol : jsstring;
  card_look : SentimentLook;
  card_summary : jsstring
}.

Definition TokenCard (index : nat) (token : TokenInfo) : Card :=
  {| card_key := id token;
     card_delay_ms := index * 100;
     card_image := image token;
     card_name := name token;
     card_symbol := symbol token;
     card_look := sentiment_look (sentiment_text (sentiment token));
     card_summary := summary token |}.

(** One pulsing placeholder of [SkeletonLoader]. *)
Record Placeholder := {
  placeholder_key : nat;
  placeholder_delay_ms : nat;
  placeholder_class : jsstring
}.

(** [[...Array(count)].map((_, i) => ...)]. *)
Definition SkeletonLoader (count : nat) (dark : bool) : list Placeholder :=
  map (fun i => {| placeholder_key := i;
                   placeholder_delay_ms := i * 100;
                   placeholder_class := if dark then js "bg-gray-800" else js "bg-white" |})
      (seq 0 count).

(** The results block: the cards, the chart's categories, the table's
    column heads. *)
Record ResultsBlock := {
  cards : list Card;
  chart_categories : list jsstring;
  table_heads : list (jsstring * jsstring)   (* key, text *)
}.

Record Screen := {
  rows : list FieldRow;
  submit_disabled : bool;
  submit_label : jsstring;
  empty_state : bool;                       (* the "No results yet" block *)
  skeleton : option (list Placeholder);
  results_block : option ResultsBlock
}.

Definition render (st : State) (dark : bool) : Screen :=
  {| rows := field_rows (tokens st);
     submit_disabled := loading st;
     submit_label := if loading st then js "Analyzing tokens..." else js "Start Analyzing";
     empty_state := negb (loading st) && (length (results st) =? 0)%nat;
     skeleton := if loading st
                 then Some (SkeletonLoader (length (tokens st)) dark)
                 else None;
     results_block :=
       if negb (loading st) && (0 <? length (results st))%nat
       then Some {| cards := imap TokenCard (results st);
                    chart_categories := map symbol (results st);
                    table_heads := map (fun token => (id token, name token)) (results st) |}
       else None |}.

End View.

Import View.

(** ** More of the specification's vocabulary *)

Module Spec2.

(** The keys [TokenSchema] reads. *)
Definition schema_keys : list jsstring :=
  [ js "id"; js "name"; js "symbol"; js "image"; js "summary"; js "price";
    js "market_cap"; js "price_change_24h"; js "volume_24h";
    js "circulating_supply"; js "sentiment" ].

(** An optional numeric field is well formed: absent, or a number. *)
Definition optional_number (v : option json) (n : option number) : Prop :=
  match v with
  | None => n = None
  | Some (JNum x) => n = Some x
  | Some _ => False
  end.

(** The optional numeric fields of the schema. *)
Definition optional_fields : list string :=
  [ "price"; "market_cap"; "price_change_24h"; "volume_24h";
    "circulating_supply" ]%string.

(** [data] is an object that carries the record [tok]: the five strings,
    an [image] the URL check accepts, each numeric field absent or a
    number, and a [sentiment] of the enumeration. *)
Definition conforms (P : Platform) (data : json) (tok : TokenInfo) : Prop :=
  (exists ms, data = JObj ms)
  /\ get "id" data = Some (JStr (id tok))
  /\ get "name" data = Some (JStr (name tok))
  /\ get "symbol" data = Some (JStr (symbol tok))
  /\ get "image" data = Some (JStr (image tok))
  /\ isURL P (image tok) = true
  /\ get "summary" data = Some (JStr (summary tok))
  /\ optional_number (get "price" data) (price tok)
  /\ optional_number (get "market_cap" data) (market_cap tok)
  /\ optional_number (get "price_change_24h" data) (price_change_24h tok)
  /\ optional_number (get "volume_24h" data) (volume_24h tok)
  /\ optional_number (get "circulating_supply" data) (circulating_supply tok)
  /\ exists s, get "sentiment" data = Some (JStr s)
               /\ (s, sentiment tok) ∈ sentiment_values.

(** The look of a card when the sentiment is, and is not, [bullish]. *)
Definition green_look : SentimentLook :=
  {| badge_class := js "bg-green-500"; badge_icon := TrendingUpIcon;
     pill_class := js "bg-green-100 text-green-800 dark:bg-green-900/30 dark:text-green-300";
     bar_class := js "bg-green-500"; bar_width := js "75%" |}.

Definition red_look : SentimentLook :=
  {| badge_class := js "bg-red-500"; badge_icon := TrendingDownIcon;
     pill_class := js "bg-red-100 text-red-800 dark:bg-red-900/30 dark:text-red-300";
     bar_class := js "bg-red-500"; bar_width := js "25%" |}.

(** Store, class and flag agree: the class is on exactly when the flag
    is truthy, and the store holds the flag's JSON text. *)
Definition in_sync (dark : json) (b : Browser) : Prop :=
  darkClass b = truthy_value dark
  /\ localStorage b !! KEY = Some (JSON_stringify dark).

(** The fields that hold a code unit that is not white space, each as
    often as it occurs and in field order. *)
Definition non_blank_fields (tokens : list jsstring) : list jsstring :=
  List.filter (existsb (fun c => negb (isWhiteSpace c))) tokens.

(** Some request of [n] never settles. *)
Definition some_pending (w : World) (n : nat) : Prop :=
  exists i, (i < n)%nat /\ i ∉ completion w.

End Spec2.

Import Spec2.

(** ** More to run the model on *)

Module Demo2.

(** Every request settles but the second. *)
Definition second_hangs : World :=
  {| respond := Demo.by_token; completion := [2; 0]%nat |}.

(** [bitcoin] with [price] null. *)
Definition bitcoin_null_price : jsstring :=
  Demo.text "{'id':'bitcoin','name':'Bitcoin','symbol':'btc','image':'https://img.example/btc.png','summary':'Steady.','price':null,'sentiment':'bullish'}".

Definition strong_bullish : jsstring :=
  Demo.text "{'id':'solana','name':'Solana','symbol':'sol','image':'https://img.example/sol.png','summary':'Up.','sentiment':'strong bullish'}".

(** The members of [bitcoin], parsed. *)
Definition bitcoin_members : list (jsstring * json) :=
  match JSON_parse Demo.bitcoin with
  | Value (JObj ms) => ms
  | _ => []
  end.

(** An upstream that answers 404 with a JSON error body. *)
Definition upstream_404 : jsstring -> FetchOutcome :=
  fun _ => Responded {| status := 404; body := Demo.text "{'detail':'Not Found'}" |}.

(** An upstream that answers with a page that is not JSON. *)
Definition upstream_html : jsstring -> FetchOutcome :=
  fun _ => Responded {| status := 502; body := js "<html>Bad Gateway</html>" |}.

(** An upstream whose body holds a number beyond the binary64 range. *)
Definition upstream_huge : jsstring -> FetchOutcome :=
  fun _ => Responded {| status := 200; body := Demo.text "{'price':1e400}" |}.

End Demo2.

(** *** The fuel of [JSON_parse] is enough *)

Section ParserFuel.

Local Open Scope nat_scope.

Lemma skip_ws_length s : length (skip_ws s) <= length s.
Proof.
  induction s as [|c r IH]; simpl; [lia|].
  destruct (isJsonWs c); simpl; lia.
Qed.

Lemma skip_ws_cons s c r : skip_ws s = c :: r -> length r < length s.
Proof. intros H. pose proof (skip_ws_length s) as L. rewrite H in L. simpl in L. simpl in *; lia. Qed.

Lemma strip_prefix_length p s r :
  strip_prefix p s = Some r -> length r + length p = length s.
Proof.
  revert s; induction p as [|a p IH]; intros [|b s]; simpl; intros H;
    try discriminate; try (injection H as <-; simpl; lia).
  destruct (N.eqb a b); [|discriminate]. apply IH in H. simpl in *; lia.
Qed.

Lemma parse_chars_length s : forall acc k r,
  parse_chars s acc = Some (k, r) -> length r < length s.
Proof.
  induction s as [s IH] using (induction_ltof1 _ (@length codeunit)).
  unfold ltof in IH. intros acc k r H.
  destruct s as [|c s]; simpl in H; [discriminate|].
  destruct (N.eqb c 34).
  { injection H as _ <-. simpl; lia. }
  destruct (N.eqb c 92).
  - destruct s as [|e s1]; [discriminate|].
    destruct (N.eqb e 117).
    + destruct s1 as [|h1 [|h2 [|h3 [|h4 r2]]]]; try discriminate.
      destruct (hex4 h1 h2 h3 h4); [|discriminate].
      apply IH in H; simpl in *; lia.
    + destruct (unescape e); [|discriminate].
      apply IH in H; simpl in *; lia.
  - destruct (N.ltb c 32); [discriminate|].
    apply IH in H; simpl in *; lia.
Qed.

Lemma take_digits_length s ds r :
  take_digits s = (ds, r) -> length r + length ds = length s.
Proof.
  revert ds r; induction s as [|c s IH]; simpl; intros ds r H.
  - injection H as <- <-. reflexivity.
  - destruct (isDigit c).
    + destruct (take_digits s) as [ds' r'] eqn:E.
      injection H as <- <-. specialize (IH _ _ eq_refl). simpl; lia.
    + injection H as <- <-. simpl; lia.
Qed.

Lemma parse_int_length s ds r :
  parse_int s = Some (ds, r) -> length r < length s.
Proof.
  destruct s as [|c s]; simpl; [discriminate|].
  destruct (N.eqb c 48).
  { intros H; injection H as _ <-. simpl in *; lia. }
  destruct (isDigit c) eqn:D; [|discriminate].
  destruct (take_digits s) as [ds' r'] eqn:E.
  intros H; injection H as _ <-. apply take_digits_length in E. simpl in *; lia.
Qed.

Lemma parse_frac_length s ds r :
  parse_frac s = Some (ds, r) -> length r <= length s.
Proof.
  destruct s as [|c s]; simpl.
  { intros H; injection H as _ <-. simpl; lia. }
  destruct (N.eqb c 46).
  - destruct (take_digits s) as [[|d ds'] r'] eqn:E; [discriminate|].
    intros H; injection H as _ <-. apply take_digits_length in E. simpl in *; lia.
  - intros H; injection H as _ <-. simpl; lia.
Qed.

Lemma parse_exp_length s ex r :
  parse_exp s = Some (ex, r) -> length r <= length s.
Proof.
  destruct s as [|c s]; simpl.
  { intros H; injection H as _ <-. simpl in *; lia. }
  destruct (_ || _).
  - destruct s as [|g r0].
    + simpl. discriminate.
    + destruct (N.eqb g 45); [|destruct (N.eqb g 43)];
        match goal with |- context [take_digits ?x] =>
          destruct (take_digits x) as [[|d ds'] r'] eqn:E end;
        try discriminate;
        intros H; injection H as _ <-; apply take_digits_length in E;
        simpl in *; lia.
  - intros H; injection H as _ <-. simpl; lia.
Qed.

Lemma parse_number_length s n r :
  parse_number s = Some (n, r) -> length r < length s.
Proof.
  unfold parse_number.
  assert (forall s1, length s1 <= length s ->
    match parse_int s1 with
    | Some (ip, s2) =>
        match parse_frac s2 with
        | Some (fp, s3) =>
            match parse_exp s3 with
            | Some (ex, s4) => length s4 < length s
            | None => True
            end
        | None => True
        end
    | None => True
    end) as K.
  { intros s1 L1. destruct (parse_int s1) as [[ip s2]|] eqn:E1; [|exact I].
    destruct (parse_frac s2) as [[fp s3]|] eqn:E2; [|exact I].
    destruct (parse_exp s3) as [[ex s4]|] eqn:E3; [|exact I].
    apply parse_int_length in E1. apply parse_frac_length in E2.
    apply parse_exp_length in E3. simpl in *; lia. }
  destruct s as [|c s']; [discriminate|].
  destruct (N.eqb c 45).
  - specialize (K s' ltac:(simpl; lia)).
    destruct (parse_int s') as [[ip s2]|]; [|discriminate].
    destruct (parse_frac s2) as [[fp s3]|]; [|discriminate].
    destruct (parse_exp s3) as [[ex s4]|]; [|discriminate].
    intros H; injection H as _ <-. exact K.
  - specialize (K (c :: s') ltac:(lia)).
    destruct (parse_int (c :: s')) as [[ip s2]|]; [|discriminate].
    destruct (parse_frac s2) as [[fp s3]|]; [|discriminate].
    destruct (parse_exp s3) as [[ex s4]|]; [|discriminate].
    intros H; injection H as _ <-. exact K.
Qed.

Lemma parse_literal_length s v r :
  parse_literal s = Parsed v r -> length r < length s.
Proof.
  unfold parse_literal.
  destruct (strip_prefix (js "true") s) eqn:E1.
  { intros H; injection H as _ <-. apply strip_prefix_length in E1. simpl in E1. simpl in *; lia. }
  destruct (strip_prefix (js "false") s) eqn:E2.
  { intros H; injection H as _ <-. apply strip_prefix_length in E2. simpl in E2. simpl in *; lia. }
  destruct (strip_prefix (js "null") s) eqn:E3; [|discriminate].
  intros H; injection H as _ <-. apply strip_prefix_length in E3. simpl in E3. simpl in *; lia.
Qed.

Lemma parse_literal_fuel s : parse_literal s <> OutOfFuel.
Proof.
  unfold parse_literal.
  repeat match goal with |- context [strip_prefix ?p s] =>
    destruct (strip_prefix p s) end; discriminate.
Qed.

Lemma parse_consumes f :
  (forall s v r, parse_value f s = Parsed v r -> length r < length s) /\
  (forall s acc v r, parse_elements f s acc = Parsed v r -> length r < length s) /\
  (forall s acc v r, parse_members f s acc = Parsed v r -> length r < length s).
Proof.
  induction f as [|f (IHv & IHe & IHm)]; [repeat split; intros; discriminate|].
  repeat split.
  - intros s v r. simpl.
    destruct (skip_ws s) as [|c r0] eqn:E; [discriminate|]. apply skip_ws_cons in E.
    destruct (N.eqb c 123).
    { destruct (skip_ws r0) as [|d r'] eqn:E'; [discriminate|]. apply skip_ws_cons in E'.
      destruct (N.eqb d 125); intros H.
      - injection H as _ <-. lia.
      - apply IHm in H. lia. }
    destruct (N.eqb c 91).
    { destruct (skip_ws r0) as [|d r'] eqn:E'; [discriminate|]. apply skip_ws_cons in E'.
      destruct (N.eqb d 93); intros H.
      - injection H as _ <-. lia.
      - apply IHe in H. lia. }
    destruct (N.eqb c 34).
    { destruct (parse_chars r0 []) as [[str r']|] eqn:E'; [|discriminate].
      apply parse_chars_length in E'. intros H; injection H as _ <-. lia. }
    destruct (_ || _).
    { destruct (parse_number (c :: r0)) as [[n r']|] eqn:E'; [|discriminate].
      apply parse_number_length in E'. intros H; injection H as _ <-.
      simpl in E'. lia. }
    intros H. apply parse_literal_length in H. simpl in H. lia.
  - intros s acc v r. simpl.
    destruct (parse_value f s) as [w r0| |] eqn:E; try discriminate.
    apply IHv in E.
    destruct (skip_ws r0) as [|d r'] eqn:E'; [discriminate|]. apply skip_ws_cons in E'.
    destruct (N.eqb d 44); intros H.
    { apply IHe in H. lia. }
    destruct (N.eqb d 93); [|discriminate].
    injection H as _ <-. lia.
  - intros s acc v r. simpl.
    destruct (skip_ws s) as [|q r0] eqn:E; [discriminate|]. apply skip_ws_cons in E.
    destruct (N.eqb q 34); [|discriminate].
    destruct (parse_chars r0 []) as [[k r1]|] eqn:E1; [|discriminate].
    apply parse_chars_length in E1.
    destruct (skip_ws r1) as [|c r2] eqn:E2; [discriminate|]. apply skip_ws_cons in E2.
    destruct (N.eqb c 58); [|discriminate].
    destruct (parse_value f r2) as [w r3| |] eqn:E3; try discriminate.
    apply IHv in E3.
    destruct (skip_ws r3) as [|d r4] eqn:E4; [discriminate|]. apply skip_ws_cons in E4.
    destruct (N.eqb d 44); intros H.
    { apply IHm in H. lia. }
    destruct (N.eqb d 125); [|discriminate].
    injection H as _ <-. lia.
Qed.

Lemma parse_fuel f :
  (forall s, 2 * length s < f -> parse_value f s <> OutOfFuel) /\
  (forall s acc, 2 * length s + 1 < f -> parse_elements f s acc <> OutOfFuel) /\
  (forall s acc, 2 * length s + 1 < f -> parse_members f s acc <> OutOfFuel).
Proof.
  induction f as [|f (IHv & IHe & IHm)]; [repeat split; intros; lia|].
  destruct (parse_consumes f) as (Cv & _ & _).
  repeat split.
  - intros s L. simpl.
    destruct (skip_ws s) as [|c r0] eqn:E; [discriminate|]. apply skip_ws_cons in E.
    destruct (N.eqb c 123).
    { destruct (skip_ws r0) as [|d r'] eqn:E'; [discriminate|].
      destruct (N.eqb d 125); [discriminate|]. apply IHm. lia. }
    destruct (N.eqb c 91).
    { destruct (skip_ws r0) as [|d r'] eqn:E'; [discriminate|].
      destruct (N.eqb d 93); [discriminate|]. apply IHe. lia. }
    destruct (N.eqb c 34).
    { destruct (parse_chars r0 []) as [[str r']|]; discriminate. }
    destruct (_ || _).
    { destruct (parse_number (c :: r0)) as [[n r']|]; discriminate. }
    apply parse_literal_fuel.
  - intros s acc L. simpl.
    destruct (parse_value f s) as [w r0| |] eqn:E; try discriminate.
    + apply Cv in E.
      destruct (skip_ws r0) as [|d r'] eqn:E'; [discriminate|]. apply skip_ws_cons in E'.
      destruct (N.eqb d 44); [apply IHe; lia|].
      destruct (N.eqb d 93); discriminate.
    + exfalso. revert E. apply IHv. lia.
  - intros s acc L. simpl.
    destruct (skip_ws s) as [|q r0] eqn:E; [discriminate|]. apply skip_ws_cons in E.
    destruct (N.eqb q 34); [|discriminate].
    destruct (parse_chars r0 []) as [[k r1]|] eqn:E1; [|discriminate].
    apply parse_chars_length in E1.
    destruct (skip_ws r1) as [|c r2] eqn:E2; [discriminate|]. apply skip_ws_cons in E2.
    destruct (N.eqb c 58); [|discriminate].
    destruct (parse_value f r2) as [w r3| |] eqn:E3; try discriminate.
    + apply Cv in E3.
      destruct (skip_ws r3) as [|d r4] eqn:E4; [discriminate|]. apply skip_ws_cons in E4.
      destruct (N.eqb d 44); [apply IHm; lia|].
      destruct (N.eqb d 125); discriminate.
    + exfalso. revert E3. apply IHv. lia.
Qed.

Lemma parse_value_fuel text : parse_value (2 * length text + 1) text <> OutOfFuel.
Proof. apply (parse_fuel (2 * length text + 1)). lia. Qed.

(** [JSON_parse] never answers [Throws] for want of fuel: it throws on a
    syntax error in the value, or on text left over after it. *)
Lemma JSON_parse_Throws text :
  JSON_parse text = Throws <->
  parse_value (2 * length text + 1) text = SyntaxError
  \/ exists v rest, parse_value (2 * length text + 1) text = Parsed v rest
                    /\ skip_ws rest <> [].
Proof.
  unfold JSON_parse. pose proof (parse_value_fuel text) as F.
  destruct (parse_value (2 * length text + 1) text) as [v rest| |].
  - destruct (skip_ws rest) as [|c r] eqn:E; split.
    + discriminate.
    + intros [H|(v' & rest' & H & Hne)]; [discriminate|].
      injection H as <- <-. congruence.
    + intros _. right. exists v, rest. split; [reflexivity|]. by rewrite E.
    + reflexivity.
  - split; [by left|reflexivity].
  - contradiction.
Qed.

End ParserFuel.

(** ** [Promise.allSettled] does not depend on the completion order *)

Section AllSettled.

Context {A : Type}.
Implicit Types (ps : list (Settled A)) (values : list (option (Settled A))).

Lemma settle_length ps values i : length (settle ps values i) = length values.
Proof. unfold settle. destruct (ps !! i); [apply length_insert|reflexivity]. Qed.

Lemma foldl_settle_length ps order : forall values,
  length (foldl (settle ps) values order) = length values.
Proof.
  induction order as [|i order IH]; intros values; simpl; [reflexivity|].
  rewrite IH. apply settle_length.
Qed.

(** Slot [j] after the completions in [order]: filled with the outcome
    of promise [j] if [j] completed, untouched otherwise. *)
Lemma foldl_settle_lookup ps order : forall values j,
  length values = length ps ->
  foldl (settle ps) values order !! j =
    if decide (j ∈ order ∧ j < length ps) then Some (ps !! j) else values !! j.
Proof.
  induction order as [|i order IH]; intros values j L; cbn [foldl].
  { destruct (decide (j ∈ [] ∧ j < length ps)) as [[H _]|]; [inversion H|reflexivity]. }
  rewrite IH by (rewrite settle_length; exact L).
  destruct (decide (j ∈ order ∧ j < length ps)) as [[Hin Hlt]|Hn].
  { rewrite decide_True; [reflexivity|]. split; [by right|exact Hlt]. }
  unfold settle.
  destruct (decide (i = j)) as [->|Hij].
  - destruct (ps !! j) as [r|] eqn:E.
    + apply lookup_lt_Some in E as Hlt.
      rewrite decide_True by (split; [by left|exact Hlt]).
      rewrite list_lookup_insert_eq by lia. reflexivity.
    + apply lookup_ge_None in E.
      rewrite decide_False; [reflexivity|]. intros [_ ?]; lia.
  - rewrite decide_False.
    2:{ intros [Hin Hlt]. apply Hn. split; [|exact Hlt].
        apply elem_of_cons in Hin as [->|?]; [congruence|assumption]. }
    destruct (ps !! i); [|reflexivity].
    by rewrite list_lookup_insert_ne.
Qed.

Lemma allSettled_complete ps order :
  (forall i, i < length ps -> i ∈ order) -> allSettled ps order = Some ps.
Proof.
  intros Hall. unfold allSettled. apply mapM_Some_2.
  apply Forall2_same_length_lookup. split.
  { rewrite foldl_settle_length, length_replicate. reflexivity. }
  intros j x y Hx Hy.
  rewrite foldl_settle_lookup in Hx by apply length_replicate.
  apply lookup_lt_Some in Hy as Hlt.
  rewrite decide_True in Hx by (split; [by apply Hall|exact Hlt]).
  simpl. congruence.
Qed.

Lemma allSettled_pending ps order i :
  i < length ps -> i ∉ order -> allSettled ps order = None.
Proof.
  intros Hlt Hnot. unfold allSettled. apply mapM_None_2.
  apply Exists_exists. exists None. split; [|reflexivity].
  apply list_elem_of_lookup. exists i.
  rewrite foldl_settle_lookup by apply length_replicate.
  rewrite decide_False by (intros [? _]; contradiction).
  by apply lookup_replicate_2.
Qed.

(** The two passes over the settled array. *)
Lemma fulfilled_values (l : list (Settled A)) :
  omap value_of (List.filter isFulfilled l) = omap value_of l.
Proof.
  induction l as [|[v|e] l IH]; simpl; [reflexivity| |exact IH].
  f_equal. exact IH.
Qed.

End AllSettled.

(** ** [handleSubmit] once every request has settled *)

Section Submit.

Variable P : Platform.

Lemma research_value o : value_of (research P o) = successful P o.
Proof.
  destruct o as [|res]; simpl; [reflexivity|].
  destruct (ok res); simpl; [|reflexivity].
  destruct (json_of res) as [data|]; [|reflexivity].
  destruct (TokenSchema_parse P data); reflexivity.
Qed.

Lemma research_rejected o : isRejected (research P o) = failed P o.
Proof.
  unfold failed. rewrite <- research_value.
  destruct (research P o); reflexivity.
Qed.

(** The promises of a submission, seen from its outcomes. *)
Lemma promises_outcomes w tokens :
  imap (fun i url => research P (respond w i url))
       (map (request_url P) (validTokens tokens))
  = map (research P) (outcomes P w tokens).
Proof.
  unfold outcomes.
  change (map (request_url P) (validTokens tokens))
    with (request_url P <$> validTokens tokens).
  rewrite imap_fmap.
  change (map (research P) ?l) with (research P <$> l).
  rewrite fmap_imap. reflexivity.
Qed.

Lemma omap_research l :
  omap value_of (map (research P) l) = omap (successful P) l.
Proof.
  induction l as [|o l IH]; [reflexivity|].
  cbn. rewrite research_value.
  destruct (successful P o); [f_equal|]; exact IH.
Qed.

Lemma rejected_research l :
  List.filter isRejected (map (research P) l)
  = map (research P) (List.filter (failed P) l).
Proof.
  induction l as [|o l IH]; simpl; [reflexivity|].
  rewrite research_rejected. destruct (failed P o); simpl; by rewrite IH.
Qed.

Lemma length_outcomes w tokens :
  length (outcomes P w tokens) = length (validTokens tokens).
Proof. unfold outcomes. apply length_imap. Qed.

(** The state a submission ends in, when some field is non-blank and
    every request settles. *)
Lemma handleSubmit_settled w st :
  validTokens (tokens st) <> [] ->
  all_settle w (length (validTokens (tokens st))) ->
  handleSubmit P w st =
    {| tokens := tokens st;
       results := omap (successful P) (outcomes P w (tokens st));
       loading := false;
       toasts := failure_notice
                   (length (List.filter (failed P) (outcomes P w (tokens st))));
       requests := requests st ++ map (request_url P) (validTokens (tokens st)) |}.
Proof.
  intros Hne Hall. unfold handleSubmit.
  destruct (validTokens (tokens st)) as [|t valid] eqn:E; [congruence|].
  change (length (t :: valid) =? 0) with false. cbv iota.
  rewrite <- E in *. rewrite promises_outcomes.
  rewrite allSettled_complete.
  2:{ intros i Hi. apply Hall. by rewrite length_map, length_outcomes in Hi. }
  rewrite fulfilled_values, omap_research, rejected_research, length_map.
  f_equal.
  destruct (length (List.filter (failed P) (outcomes P w (tokens st))));
    reflexivity.
Qed.

Lemma successful_failed_length l :
  length (omap (successful P) l) + length (List.filter (failed P) l) = length l.
Proof.
  induction l as [|o l IH]; [reflexivity|].
  cbn. unfold failed at 1. destruct (successful P o); cbn; lia.
Qed.

End Submit.

(** ** Blank fields and [trim] *)

Section Trim.

Lemma forallb_trimStart s :
  forallb isWhiteSpace (trimStart s) = forallb isWhiteSpace s.
Proof.
  induction s as [|c r IH]; [reflexivity|]. simpl.
  destruct (isWhiteSpace c) eqn:E; simpl; [exact IH|].
  rewrite E. reflexivity.
Qed.

Lemma truthy_trimStart s :
  truthy (trimStart s) = negb (forallb isWhiteSpace s).
Proof.
  induction s as [|c r IH]; [reflexivity|]. simpl.
  destruct (isWhiteSpace c); [exact IH|reflexivity].
Qed.

Lemma forallb_rev (f : codeunit -> bool) s : forallb f (rev s) = forallb f s.
Proof.
  induction s as [|c r IH]; [reflexivity|]. simpl.
  rewrite forallb_app, IH. simpl. rewrite andb_true_r. apply andb_comm.
Qed.

Lemma truthy_rev s : truthy (rev s) = truthy s.
Proof.
  destruct s as [|c r]; [reflexivity|]. simpl.
  destruct (rev r); reflexivity.
Qed.

(** What the filter of [handleSubmit] tests. *)
Lemma truthy_trim t : truthy (trim t) = negb (forallb isWhiteSpace t).
Proof.
  unfold trim, trimEnd.
  rewrite truthy_rev, truthy_trimStart, forallb_rev, forallb_trimStart.
  reflexivity.
Qed.

Lemma blank_forallb t : blank t <-> forallb isWhiteSpace t = true.
Proof.
  unfold blank. rewrite List.Forall_forall, forallb_forall. reflexivity.
Qed.

Lemma validTokens_blank tokens : Forall blank tokens -> validTokens tokens = [].
Proof.
  unfold validTokens.
  induction 1 as [|t tokens Ht _ IH]; [reflexivity|]. simpl.
  apply blank_forallb in Ht. rewrite truthy_trim, Ht. exact IH.
Qed.

Lemma validTokens_keeps tokens t :
  t ∈ tokens -> ~ blank t -> t ∈ validTokens tokens.
Proof.
  intros Hin Hnb. unfold validTokens.
  apply list_elem_of_In, filter_In. split; [by apply list_elem_of_In|].
  rewrite truthy_trim. destruct (forallb isWhiteSpace t) eqn:E; [|reflexivity].
  exfalso. apply Hnb. by apply blank_forallb.
Qed.

End Trim.

(** ** What a record in the result set is *)

Lemma omap_skip {A B} (f : A -> option B) x l :
  f x = None -> omap f (x :: l) = omap f l.
Proof. intros H. cbn. by rewrite H. Qed.

Lemma filter_keep {A} (f : A -> bool) x l :
  f x = true -> List.filter f (x :: l) = x :: List.filter f l.
Proof. intros H. simpl. by rewrite H. Qed.

Section Records.

Variable P : Platform.

(** A record that passed the schema repeats the response field by field;
    only the fields the claims speak of are spelled out. *)
Lemma TokenSchema_parse_sound data tok :
  TokenSchema_parse P data = Some tok ->
  get "id" data = Some (JStr (id tok))
  /\ get "image" data = Some (JStr (image tok))
  /\ isURL P (image tok) = true
  /\ exists s, get "sentiment" data = Some (JStr s)
               /\ (s, sentiment tok) ∈ sentiment_values.
Proof.
  unfold TokenSchema_parse. destruct data as [| | | | |ms]; try discriminate.
  intros H.
  destruct (z_string (get "id" (JObj ms))) as [i|] eqn:Ei; [|discriminate].
  destruct (z_string (get "name" (JObj ms))) as [n|]; [|discriminate].
  destruct (z_string (get "symbol" (JObj ms))) as [sy|]; [|discriminate].
  destruct (z_string_url P (get "image" (JObj ms))) as [im|] eqn:Eim; [|discriminate].
  destruct (z_string (get "summary" (JObj ms))) as [su|]; [|discriminate].
  destruct (z_number_optional (get "price" (JObj ms))); [|discriminate].
  destruct (z_number_optional (get "market_cap" (JObj ms))); [|discriminate].
  destruct (z_number_optional (get "price_change_24h" (JObj ms))); [|discriminate].
  destruct (z_number_optional (get "volume_24h" (JObj ms))); [|discriminate].
  destruct (z_number_optional (get "circulating_supply" (JObj ms))); [|discriminate].
  destruct (z_enum (get "sentiment" (JObj ms))) as [se|] eqn:Ese; [|discriminate].
  injection H as <-. simpl.
  assert (forall v s, z_string v = Some s -> v = Some (JStr s)) as Zs.
  { intros [[]|] s0; simpl; intros E; try discriminate. by injection E as ->. }
  split; [by apply Zs|].
  unfold z_string_url in Eim.
  destruct (z_string (get "image" (JObj ms))) as [s|] eqn:Es; [|discriminate].
  destruct (isURL P s) eqn:Eu; [|discriminate]. injection Eim as ->.
  split; [by apply Zs|]. split; [exact Eu|].
  unfold z_enum in Ese. cbn [get] in Ese |- *.
  destruct (assoc_last (js "sentiment") ms) as [[| | |s| |]|]; try discriminate.
  exists s. split; [reflexivity|].
  destruct (List.find _ sentiment_values) as [[s' se']|] eqn:Ef; [|discriminate].
  injection Ese as <-. apply find_some in Ef as [Hin Heq].
  apply bool_decide_eq_true in Heq. simpl in Heq. subst s'.
  by apply list_elem_of_In.
Qed.

Lemma TokenSchema_parse_rejects data :
  sentiment_missing_or_unknown data \/ image_not_url P data ->
  TokenSchema_parse P data = None.
Proof.
  intros Bad. destruct (TokenSchema_parse P data) as [tok|] eqn:E; [|reflexivity].
  exfalso. apply TokenSchema_parse_sound in E as (_ & Him & Hurl & s & Hs & Hin).
  destruct Bad as [[Hnone|(v & Hv & Hout)]|Himg].
  - congruence.
  - rewrite Hs in Hv. injection Hv as <-. apply (Hout s); [|reflexivity].
    apply list_elem_of_In, in_map_iff. exists (s, sentiment tok).
    split; [reflexivity|]. by apply list_elem_of_In.
  - apply Himg in Him. congruence.
Qed.

Lemma successful_Some o tok :
  successful P o = Some tok <->
  exists res data, o = Responded res /\ ok res = true
                   /\ json_of res = Value data
                   /\ TokenSchema_parse P data = Some tok.
Proof.
  split.
  - destruct o as [|res]; simpl; [discriminate|].
    destruct (ok res) eqn:Eok; [|discriminate].
    destruct (json_of res) as [data|] eqn:Ej; [|discriminate].
    intros H. by exists res, data.
  - intros (res & data & -> & Hok & Hj & Hp). simpl. by rewrite Hok, Hj.
Qed.

Lemma outcomes_lookup w tokens i :
  outcomes P w tokens !! i
  = (fun t => respond w i (request_url P t)) <$> validTokens tokens !! i.
Proof. unfold outcomes. apply list_lookup_imap. Qed.

(** Where the records of the result set come from. *)
Lemma elem_of_successful w tokens tok :
  tok ∈ omap (successful P) (outcomes P w tokens) <->
  exists i t res data,
    validTokens tokens !! i = Some t
    /\ respond w i (request_url P t) = Responded res
    /\ ok res = true
    /\ json_of res = Value data
    /\ TokenSchema_parse P data = Some tok.
Proof.
  rewrite list_elem_of_omap. split.
  - intros (o & Hin & Hs). apply list_elem_of_lookup in Hin as [i Hi].
    rewrite outcomes_lookup in Hi.
    destruct (validTokens tokens !! i) as [t|] eqn:Et; [|discriminate].
    simpl in Hi. injection Hi as <-.
    apply successful_Some in Hs as (res & data & Ho & ?).
    by exists i, t, res, data.
  - intros (i & t & res & data & Ht & Hr & Hrest).
    exists (Responded res). split.
    + apply list_elem_of_lookup. exists i. rewrite outcomes_lookup, Ht. simpl.
      by rewrite Hr.
    + apply successful_Some. by exists res, data.
Qed.

(** The URLs handed to [fetch], settled or not. *)
Lemma handleSubmit_requests w st :
  requests (handleSubmit P w st)
  = requests st ++ map (request_url P) (validTokens (tokens st)).
Proof.
  unfold handleSubmit.
  destruct (validTokens (tokens st)) as [|t valid]; simpl.
  { by rewrite app_nil_r. }
  match goal with |- context [allSettled ?ps ?o] => destruct (allSettled ps o) end;
    reflexivity.
Qed.

End Records.

(** ** The submission *)

(** C1: when some field is non-blank and every request of the submission
    settles, in whatever order, the result set holds exactly the records
    of the requests that completed, had an ok status and a schema-valid
    JSON body, in the order the requests were issued; the notice names the
    number of failed requests (and there is none when nothing failed). *)
Theorem submit_partitions_responses (P : Platform) (w : World) (st : State) :
  validTokens (tokens st) <> [] ->
  all_settle w (length (validTokens (tokens st))) ->
  let st' := handleSubmit P w st in
  let os := outcomes P w (tokens st) in
  let failedCount := length (List.filter (failed P) os) in
  results st' = omap (successful P) os
  /\ (forall tok, tok ∈ results st' <->
        exists i t res data,
          validTokens (tokens st) !! i = Some t
          /\ respond w i (request_url P t) = Responded res
          /\ ok res = true
          /\ json_of res = Value data
          /\ TokenSchema_parse P data = Some tok)
  /\ toasts st' = match failedCount with
                  | O => []
                  | S _ => [failed_message failedCount]
                  end
  /\ (length (results st') + failedCount = length (validTokens (tokens st)))%nat
  /\ loading st' = false.
Proof.
  intros Hne Hall st' os failedCount. subst st'.
  rewrite (handleSubmit_settled P w st Hne Hall). simpl.
  split; [reflexivity|]. split; [apply elem_of_successful|].
  split; [reflexivity|]. split; [|reflexivity].
  subst failedCount os. rewrite successful_failed_length. apply length_outcomes.
Qed.

(** C2: when every field is blank the submission stops before any
    request: nothing is added to the URLs fetched, the notice asks for a
    token, and the result set is left empty whatever it held before. *)
Theorem blank_submission_aborts (P : Platform) (w : World) (st : State) :
  Forall blank (tokens st) ->
  let st' := handleSubmit P w st in
  requests st' = requests st
  /\ toasts st' = [js "Please enter at least one token"]
  /\ results st' = []
  /\ loading st' = false
  /\ tokens st' = tokens st.
Proof.
  intros Hblank. unfold handleSubmit.
  rewrite (validTokens_blank _ Hblank). simpl. repeat split.
Qed.

(** C3: a JSON response whose [sentiment] is missing or outside the
    enumeration, or whose [image] is not a URL, fails the schema; its token
    adds no record to the result set and exactly one to the count in the
    notice; every record shown is the full parse of some other response,
    with that response's own sentiment and image. *)
Theorem invalid_response_excluded (P : Platform) (w : World) (st : State)
    (i : nat) (t : jsstring) (res : Response) (data : json) :
  all_settle w (length (validTokens (tokens st))) ->
  validTokens (tokens st) !! i = Some t ->
  respond w i (request_url P t) = Responded res ->
  json_of res = Value data ->
  sentiment_missing_or_unknown data \/ image_not_url P data ->
  let st' := handleSubmit P w st in
  let os := outcomes P w (tokens st) in
  let before := take i os in
  let after := drop (S i) os in
  TokenSchema_parse P data = None
  /\ results st' = omap (successful P) before ++ omap (successful P) after
  /\ toasts st' = [failed_message (length (List.filter (failed P) before) + 1
                                   + length (List.filter (failed P) after))]
  /\ (forall tok, tok ∈ results st' ->
        exists j t' res' data',
          j <> i
          /\ validTokens (tokens st) !! j = Some t'
          /\ respond w j (request_url P t') = Responded res'
          /\ json_of res' = Value data'
          /\ TokenSchema_parse P data' = Some tok
          /\ get "image" data' = Some (JStr (image tok))
          /\ isURL P (image tok) = true
          /\ exists s, get "sentiment" data' = Some (JStr s)
                       /\ (s, sentiment tok) ∈ sentiment_values).
Proof.
  intros Hall Ht Hr Hj Bad st' os before after. subst st'.
  pose proof (TokenSchema_parse_rejects P data Bad) as Hrej.
  assert (validTokens (tokens st) <> []) as Hne.
  { intros E. rewrite E in Ht. discriminate. }
  assert (os !! i = Some (Responded res)) as Hi.
  { subst os. rewrite outcomes_lookup, Ht. simpl. by rewrite Hr. }
  assert (successful P (Responded res) = None) as Hnone.
  { simpl. destruct (ok res); [|reflexivity]. by rewrite Hj. }
  assert (os = before ++ Responded res :: after) as Hos.
  { subst before after. symmetry. by apply take_drop_middle. }
  rewrite (handleSubmit_settled P w st Hne Hall). simpl. fold os.
  split; [exact Hrej|].
  assert (omap (successful P) os
          = omap (successful P) before ++ omap (successful P) after) as Hres.
  { rewrite Hos at 1. rewrite omap_app. by rewrite (omap_skip _ _ _ Hnone). }
  split; [exact Hres|]. split.
  { rewrite Hos at 1. rewrite List.filter_app, length_app.
    rewrite filter_keep by (unfold failed; by rewrite Hnone).
    cbn [length].
    replace (length (List.filter (failed P) before)
             + S (length (List.filter (failed P) after)))%nat
      with (S (length (List.filter (failed P) before)
               + length (List.filter (failed P) after)))%nat by lia.
    cbn [failure_notice]. do 2 f_equal. lia. }
  intros tok Hin. apply elem_of_successful in Hin
    as (j & t' & res' & data' & Ht' & Hr' & Hok' & Hj' & Hp').
  exists j, t', res', data'.
  assert (j <> i) as Hji.
  { intros ->. rewrite Ht in Ht'. injection Ht' as <-.
    rewrite Hr in Hr'. injection Hr' as <-.
    rewrite Hj in Hj'. injection Hj' as <-. congruence. }
  pose proof (TokenSchema_parse_sound P data' tok Hp') as (_ & Him & Hurl & Hs).
  repeat (split; [assumption|]). exact Hs.
Qed.

Lemma submit_partitions_responses_witness :
  validTokens (tokens Demo.four_fields) <> []
  /\ all_settle Demo.out_of_order 3
  /\ map id (results (handleSubmit Demo.platform Demo.out_of_order Demo.four_fields))
     = [js "bitcoin"; js "ethereum"]
  /\ toasts (handleSubmit Demo.platform Demo.out_of_order Demo.four_fields)
     = [js "Failed to fetch 1 token"].
Proof.
  assert (validTokens (tokens Demo.four_fields) <> []) as H1
    by (vm_compute; discriminate).
  assert (all_settle Demo.out_of_order 3) as H2.
  { intros i Hi. destruct i as [|[|[|i]]]; [repeat constructor..|lia]. }
  destruct (submit_partitions_responses Demo.platform Demo.out_of_order
              Demo.four_fields H1 H2) as (Hres & _ & Htoast & _).
  split; [exact H1|]. split; [exact H2|]. split.
  - rewrite Hres. vm_compute. reflexivity.
  - rewrite Htoast. vm_compute. reflexivity.
Defined.

Lemma blank_submission_aborts_witness :
  Forall blank (tokens Demo.blank_fields)
  /\ results Demo.blank_fields <> []
  /\ requests (handleSubmit Demo.platform Demo.out_of_order Demo.blank_fields) = []
  /\ results (handleSubmit Demo.platform Demo.out_of_order Demo.blank_fields) = [].
Proof.
  assert (Forall blank (tokens Demo.blank_fields)) as H.
  { repeat constructor. }
  destruct (blank_submission_aborts Demo.platform Demo.out_of_order
              Demo.blank_fields H) as (Hreq & _ & Hres & _).
  split; [exact H|]. split; [vm_compute; discriminate|].
  split; [exact Hreq|exact Hres].
Defined.

Lemma invalid_response_excluded_witness :
  all_settle Demo.out_of_order 3
  /\ validTokens (tokens Demo.four_fields) !! 1%nat = Some (js "doge")
  /\ (exists data, JSON_parse Demo.ethereum_hype = Value data
                   /\ sentiment_missing_or_unknown data
                   /\ TokenSchema_parse Demo.platform data = None)
  /\ map id (results (handleSubmit Demo.platform Demo.out_of_order Demo.four_fields))
     = [js "bitcoin"; js "ethereum"].
Proof.
  assert (all_settle Demo.out_of_order 3) as H2.
  { intros i Hi. destruct i as [|[|[|i]]]; [repeat constructor..|lia]. }
  assert (validTokens (tokens Demo.four_fields) !! 1%nat = Some (js "doge")) as H3
    by reflexivity.
  destruct (JSON_parse Demo.ethereum_hype) as [data|] eqn:E;
    [|vm_compute in E; discriminate].
  assert (sentiment_missing_or_unknown data) as Bad.
  { right. exists (JStr (js "moon")). vm_compute in E. injection E as <-.
    split; [reflexivity|]. intros s Hs Heq. injection Heq as <-.
    vm_compute in Hs.
    repeat (apply elem_of_cons in Hs as [Hs|Hs]; [discriminate|]).
    inversion Hs. }
  destruct (invalid_response_excluded Demo.platform Demo.out_of_order
              Demo.four_fields 1 (js "doge")
              {| status := 200; body := Demo.ethereum_hype |} data
              H2 H3 eq_refl E (or_introl Bad)) as (Hrej & Hres & _).
  split; [exact H2|]. split; [exact H3|]. split.
  - exists data. split; [reflexivity|]. split; [exact Bad|exact Hrej].
  - rewrite Hres. vm_compute. reflexivity.
Defined.

(** ** Identifiers in the result set *)

Lemma NoDup_omap_by {A B C} (f : A -> option B) (g : B -> C) (l : list A) :
  (forall i j x y a b,
     i <> j -> l !! i = Some x -> l !! j = Some y ->
     f x = Some a -> f y = Some b -> g a <> g b) ->
  NoDup (map g (omap f l)).
Proof.
  induction l as [|x l IH]; intros H; [constructor|].
  assert (NoDup (map g (omap f l))) as Htail.
  { apply IH. intros i j x' y' a b Hij Hi Hj.
    apply (H (S i) (S j)); [lia|exact Hi|exact Hj]. }
  destruct (f x) as [a|] eqn:E.
  2:{ by rewrite (omap_skip f x l E). }
  change (omap f (x :: l)) with (from_option (fun y => y :: omap f l) (omap f l) (f x)).
  rewrite E. cbn. apply NoDup_cons. split; [|exact Htail].
  intros Hin. apply list_elem_of_In, in_map_iff in Hin as (b & Hgb & Hb).
  apply list_elem_of_In, list_elem_of_omap in Hb as (y & Hy & Hfy).
  apply list_elem_of_lookup in Hy as [j Hj].
  apply (H 0 (S j) x y a b); [lia|reflexivity|exact Hj|exact E|exact Hfy|].
  by symmetry.
Qed.

Lemma omap_keep {A B} (f : A -> option B) x l a :
  f x = Some a -> omap f (x :: l) = a :: omap f l.
Proof. intros H. cbn. by rewrite H. Qed.

(** Where the image of a kept entry stands in the result. *)
Lemma omap_lookup_position {A B} (f : A -> option B) (l : list A) j x a :
  l !! j = Some x -> f x = Some a ->
  omap f l !! length (omap f (take j l)) = Some a.
Proof.
  intros Hj Hf.
  replace (omap f l) with (omap f (take j l ++ x :: drop (S j) l))
    by (by rewrite take_drop_middle).
  rewrite omap_app, (omap_keep f x _ a Hf).
  rewrite lookup_app_r by lia. by rewrite Nat.sub_diag.
Qed.

Lemma omap_position_lt {A B} (f : A -> option B) (l : list A) j k x a :
  (j < k)%nat -> l !! j = Some x -> f x = Some a ->
  (length (omap f (take j l)) < length (omap f (take k l)))%nat.
Proof.
  intros Hjk Hj Hf.
  assert (take k l !! j = Some x) as Hj' by (by rewrite lookup_take_lt).
  rewrite <- (take_drop_middle (take k l) j x Hj').
  rewrite take_take. replace (j `min` k)%nat with j by lia.
  rewrite omap_app, (omap_keep f x _ a Hf), length_app. simpl. lia.
Qed.

(** Two accepted requests give two entries, in request order. *)
Lemma two_accepted_two_entries (P : Platform) (w : World) (tokens : list jsstring)
    j k tj tk resj resk dj dk a b :
  (j < k)%nat ->
  validTokens tokens !! j = Some tj ->
  validTokens tokens !! k = Some tk ->
  respond w j (request_url P tj) = Responded resj ->
  respond w k (request_url P tk) = Responded resk ->
  ok resj = true -> ok resk = true ->
  json_of resj = Value dj -> json_of resk = Value dk ->
  TokenSchema_parse P dj = Some a ->
  TokenSchema_parse P dk = Some b ->
  exists j' k', (j' < k')%nat
                /\ omap (successful P) (outcomes P w tokens) !! j' = Some a
                /\ omap (successful P) (outcomes P w tokens) !! k' = Some b.
Proof.
  intros Hjk Hj Hk Hrj Hrk Hokj Hokk Hdj Hdk Ha Hb.
  set (os := outcomes P w tokens).
  assert (os !! j = Some (Responded resj)) as Oj.
  { subst os. rewrite outcomes_lookup, Hj. simpl. by rewrite Hrj. }
  assert (os !! k = Some (Responded resk)) as Ok.
  { subst os. rewrite outcomes_lookup, Hk. simpl. by rewrite Hrk. }
  assert (successful P (Responded resj) = Some a) as Sj.
  { apply successful_Some. by exists resj, dj. }
  assert (successful P (Responded resk) = Some b) as Sk.
  { apply successful_Some. by exists resk, dk. }
  exists (length (omap (successful P) (take j os))),
         (length (omap (successful P) (take k os))).
  split; [exact (omap_position_lt _ os j k _ a Hjk Oj Sj)|].
  split; [exact (omap_lookup_position _ os j _ a Oj Sj)
         |exact (omap_lookup_position _ os k _ b Ok Sk)].
Qed.

(** C7, as the code has it: the entries are the records of the accepted
    responses, each with the [id] field of its response; every accepted
    request gives an entry of its own, in request order, so nothing
    removes a repeated id; hence no two entries share an id exactly when
    no two different requests get accepted responses with the same
    [id]. *)
Theorem result_ids_follow_responses (P : Platform) (w : World) (st : State) :
  validTokens (tokens st) <> [] ->
  all_settle w (length (validTokens (tokens st))) ->
  let st' := handleSubmit P w st in
  (forall a, a ∈ results st' ->
     exists i t res data,
       validTokens (tokens st) !! i = Some t
       /\ respond w i (request_url P t) = Responded res
       /\ ok res = true
       /\ json_of res = Value data
       /\ TokenSchema_parse P data = Some a
       /\ get "id" data = Some (JStr (id a)))
  /\ (forall j k tj tk resj resk dj dk a b,
        (j < k)%nat ->
        validTokens (tokens st) !! j = Some tj ->
        validTokens (tokens st) !! k = Some tk ->
        respond w j (request_url P tj) = Responded resj ->
        respond w k (request_url P tk) = Responded resk ->
        ok resj = true -> ok resk = true ->
        json_of resj = Value dj -> json_of resk = Value dk ->
        TokenSchema_parse P dj = Some a ->
        TokenSchema_parse P dk = Some b ->
        exists j' k', (j' < k')%nat
                      /\ results st' !! j' = Some a
                      /\ results st' !! k' = Some b)
  /\ (NoDup (map id (results st')) <-> distinct_response_ids P w (tokens st))
  /\ (distinct_response_ids P w (tokens st) ->
      forall j k a b,
        results st' !! j = Some a -> results st' !! k = Some b ->
        id a = id b -> j = k).
Proof.
  intros Hne Hall st'. subst st'.
  rewrite (handleSubmit_settled P w st Hne Hall). simpl.
  set (rs := omap (successful P) (outcomes P w (tokens st))).
  assert (distinct_response_ids P w (tokens st) -> NoDup (map id rs)) as Hnd.
  { intros Hdist. apply NoDup_omap_by. intros j k x y a b Hjk Hx Hy Ha Hb Hid.
    rewrite outcomes_lookup in Hx, Hy.
    destruct (validTokens (tokens st) !! j) as [tj|] eqn:Ej; [|discriminate].
    destruct (validTokens (tokens st) !! k) as [tk|] eqn:Ek; [|discriminate].
    simpl in Hx, Hy. injection Hx as <-. injection Hy as <-.
    apply successful_Some in Ha as (resj & dj & Hrj & Hokj & Hjj & Hpj).
    apply successful_Some in Hb as (resk & dk & Hrk & Hokk & Hjk' & Hpk).
    apply (Hdist j k tj tk resj resk dj dk a b); try assumption.
    apply TokenSchema_parse_sound in Hpj as (-> & _).
    apply TokenSchema_parse_sound in Hpk as (-> & _).
    by rewrite Hid. }
  assert (forall j k a b, NoDup (map id rs) ->
            rs !! j = Some a -> rs !! k = Some b -> id a = id b -> j = k) as Hinj.
  { intros j k a b Hn Ha Hb Hid.
    apply (proj1 (NoDup_alt _) Hn j k (id a)).
    + change (map id ?l) with (id <$> l). by rewrite list_lookup_fmap, Ha.
    + change (map id ?l) with (id <$> l). rewrite list_lookup_fmap, Hb. simpl.
      by rewrite Hid. }
  split; [|split; [|split; [split; [|exact Hnd]|]]].
  - intros a Ha. apply elem_of_successful in Ha
      as (i & t & res & data & Ht & Hr & Hok & Hj & Hp).
    exists i, t, res, data. repeat (split; [assumption|]).
    by apply TokenSchema_parse_sound in Hp as (-> & _).
  - intros j k tj tk resj resk dj dk a b.
    apply two_accepted_two_entries.
  - intros Hn j k tj tk resj resk dj dk a b Hjk Hj Hk Hrj Hrk Hokj Hokk Hdj Hdk
      Ha Hb Hid.
    pose proof (TokenSchema_parse_sound P dj a Ha) as (Ia & _).
    pose proof (TokenSchema_parse_sound P dk b Hb) as (Ib & _).
    assert (id a = id b) as Hab by congruence.
    destruct (Nat.lt_total j k) as [Hlt|[Heq|Hgt]]; [|by destruct Hjk|].
    + destruct (two_accepted_two_entries P w (tokens st) j k tj tk resj resk
                  dj dk a b Hlt Hj Hk Hrj Hrk Hokj Hokk Hdj Hdk Ha Hb)
        as (j' & k' & Hlt' & Hj' & Hk').
      pose proof (Hinj j' k' a b Hn Hj' Hk' Hab). lia.
    + destruct (two_accepted_two_entries P w (tokens st) k j tk tj resk resj
                  dk dj b a Hgt Hk Hj Hrk Hrj Hokk Hokj Hdk Hdj Hb Ha)
        as (k' & j' & Hlt' & Hk' & Hj').
      pose proof (Hinj j' k' a b Hn Hj' Hk' Hab). lia.
  - intros Hdist j k a b. apply Hinj, Hnd, Hdist.
Qed.

Lemma result_ids_follow_responses_witness :
  validTokens (tokens Demo.four_fields) <> []
  /\ all_settle Demo.out_of_order 3
  /\ distinct_response_ids Demo.platform Demo.out_of_order (tokens Demo.four_fields)
  /\ NoDup (map id (results (handleSubmit Demo.platform Demo.out_of_order
                               Demo.four_fields))).
Proof.
  assert (validTokens (tokens Demo.four_fields) <> []) as H1
    by (vm_compute; discriminate).
  assert (all_settle Demo.out_of_order 3) as H2.
  { intros i Hi. destruct i as [|[|[|i]]]; [repeat constructor..|lia]. }
  assert (distinct_response_ids Demo.platform Demo.out_of_order
            (tokens Demo.four_fields)) as H3.
  { intros j k tj tk resj resk dj dk a b Hjk Hj Hk Hrj Hrk _ _ Hdj Hdk Ha Hb.
    destruct j as [|[|[|j]]]; [| | |vm_compute in Hj; discriminate];
      destruct k as [|[|[|k]]]; try (vm_compute in Hk; discriminate);
      try (by destruct Hjk);
      vm_compute in Hj, Hk; injection Hj as <-; injection Hk as <-;
      vm_compute in Hrj, Hrk; injection Hrj as <-; injection Hrk as <-;
      vm_compute in Hdj, Hdk; injection Hdj as <-; injection Hdk as <-;
      vm_compute in Ha, Hb; try discriminate;
      vm_compute; discriminate. }
  destruct (result_ids_follow_responses Demo.platform Demo.out_of_order
              Demo.four_fields H1 H2) as (_ & _ & Hiff & _).
  split; [exact H1|]. split; [exact H2|]. split; [exact H3|].
  apply Hiff, H3.
Defined.

(** C7 fails as stated: the same token in two fields gives two entries
    with the same id. *)
Lemma result_ids_unique_counterexample :
  map id (results (handleSubmit Demo.platform Demo.in_order Demo.same_twice))
  = [js "bitcoin"; js "bitcoin"]
  /\ ~ NoDup (map id (results (handleSubmit Demo.platform Demo.in_order
                                  Demo.same_twice))).
Proof.
  assert (map id (results (handleSubmit Demo.platform Demo.in_order Demo.same_twice))
          = [js "bitcoin"; js "bitcoin"]) as E by (vm_compute; reflexivity).
  split; [exact E|]. rewrite E. intros H.
  apply NoDup_cons in H as [Hnot _]. apply Hnot. left.
Qed.

(** ** What a fetched URL delivers *)

Section Delivery.

Local Open Scope N_scope.

(** A check that holds of each of the 128 ASCII code units holds of any
    of them. *)
Lemma ascii_table (check : N -> bool) :
  forallb check (map N.of_nat (seq 0 128)) = true ->
  forall c, c < 0x80 -> check c = true.
Proof.
  intros H c Hc. rewrite forallb_forall in H. apply H.
  rewrite <- (N2Nat.id c). apply in_map, in_seq. lia.
Qed.

Lemma query_safe_ascii c : query_safe c = true -> c < 0x80.
Proof.
  unfold query_safe. intros H. apply andb_true_iff in H as [H _].
  by apply N.ltb_lt.
Qed.

Lemma scalar_values_ascii s :
  Forall (fun c => c < 0x80) s -> scalar_values s = s.
Proof.
  induction 1 as [|c s Hc _ IH]; [reflexivity|]. cbn [scalar_values].
  unfold isHighSurrogate, isLowSurrogate.
  replace (0xD800 <=? c) with false by (symmetry; apply N.leb_gt; lia).
  replace (0xDC00 <=? c) with false by (symmetry; apply N.leb_gt; lia).
  cbn [andb]. by rewrite IH.
Qed.

Lemma strip_leading_app l1 c l2 :
  0x20 < c -> strip_leading (l1 ++ c :: l2) = strip_leading l1 ++ c :: l2.
Proof.
  intros Hc. induction l1 as [|d l1 IH]; cbn [strip_leading app].
  - unfold isC0ControlOrSpace.
    by replace (c <=? 0x20) with false by (symmetry; apply N.leb_gt; lia).
  - destruct (isC0ControlOrSpace d); [exact IH|reflexivity].
Qed.

Lemma strip_leading_Forall (Q : N -> Prop) s :
  Forall Q s -> Forall Q (strip_leading s).
Proof.
  induction 1 as [|c s Hc Hs IH]; [constructor|]. cbn [strip_leading].
  destruct (isC0ControlOrSpace c); [exact IH|by constructor].
Qed.

Lemma strip_trailing_Forall (Q : N -> Prop) s :
  Forall Q s -> Forall Q (strip_trailing s).
Proof.
  intros H. unfold strip_trailing.
  apply Forall_rev, strip_leading_Forall, Forall_rev, H.
Qed.

Lemma strip_trailing_app l c s :
  0x20 < c -> strip_trailing ((l ++ [c]) ++ s) = (l ++ [c]) ++ strip_trailing s.
Proof.
  intros Hc. unfold strip_trailing.
  rewrite !rev_app_distr. cbn [rev app].
  rewrite (strip_leading_app (rev s) c (rev l) Hc).
  rewrite rev_app_distr. cbn [rev]. by rewrite rev_involutive.
Qed.

Lemma strip_trailing_end l c : 0x20 < c -> strip_trailing (l ++ [c]) = l ++ [c].
Proof.
  intros Hc. pose proof (strip_trailing_app l c [] Hc) as E.
  by rewrite !app_nil_r in E.
Qed.

Lemma strip_trailing_blank l c post :
  0x20 < c -> Forall (fun d => d <= 0x20) post ->
  strip_trailing ((l ++ [c]) ++ post) = l ++ [c].
Proof.
  intros Hc Hpost. rewrite (strip_trailing_app l c post Hc).
  assert (strip_trailing post = []) as ->; [|by rewrite app_nil_r].
  unfold strip_trailing.
  assert (strip_leading (rev post) = []) as ->; [|reflexivity].
  apply Forall_rev in Hpost. induction Hpost as [|d r Hd _ IH]; [reflexivity|].
  cbn [strip_leading]. unfold isC0ControlOrSpace.
  by replace (d <=? 0x20) with true by (symmetry; apply N.leb_le; lia).
Qed.

Lemma filter_all {A} (f : A -> bool) l :
  Forall (fun x => f x = true) l -> List.filter f l = l.
Proof.
  induction 1 as [|x l Hx _ IH]; [reflexivity|]. simpl. by rewrite Hx, IH.
Qed.

Lemma filter_Forall {A} (Q : A -> Prop) (f : A -> bool) l :
  Forall Q l -> Forall Q (List.filter f l).
Proof.
  induction 1 as [|x l Hx _ IH]; [constructor|]. simpl.
  destruct (f x); [by constructor|exact IH].
Qed.

Lemma before_hash_none s : Forall (fun c => c <> 0x23) s -> before_hash s = s.
Proof.
  induction 1 as [|c s Hc _ IH]; [reflexivity|]. cbn [before_hash].
  replace (c =? 0x23) with false by (symmetry; by apply N.eqb_neq).
  by rewrite IH.
Qed.

Lemma after_question_first path rest :
  Forall (fun c => c <> 0x3F) path ->
  after_question (path ++ 0x3F :: rest) = Some rest.
Proof.
  induction 1 as [|c s Hc _ IH]; [reflexivity|]. cbn [after_question app].
  by replace (c =? 0x3F) with false by (symmetry; by apply N.eqb_neq).
Qed.

Lemma split_on_none sep bs cur :
  Forall (fun b => b <> sep) bs -> split_on sep bs cur = [rev cur ++ bs].
Proof.
  intros H. revert cur. induction H as [|b bs Hb _ IH]; intros cur.
  - cbn. by rewrite app_nil_r.
  - cbn [split_on].
    replace (b =? sep) with false by (symmetry; by apply N.eqb_neq).
    rewrite IH. cbn [rev]. by rewrite <- app_assoc.
Qed.

Lemma encoded_plainly_ascii c : query_safe c = true -> encoded_plainly c = true.
Proof.
  intros H. apply (ascii_table encoded_plainly); [by vm_compute|].
  by apply query_safe_ascii.
Qed.

Lemma percent_encode_query_ascii c :
  c < 0x80 -> percent_encode_query c = percent_encode_byte c.
Proof.
  intros H. unfold percent_encode_query, utf8_encode.
  replace (c <? 0x80) with true by (symmetry; by apply N.ltb_lt).
  cbn [flat_map]. apply app_nil_r.
Qed.

Lemma encoded_no_separator s :
  Forall (fun c => query_safe c = true) s ->
  Forall (fun b => b <> 0x26 /\ b <> 0x2B) (flat_map percent_encode_byte s).
Proof.
  induction 1 as [|c s Hc _ IH]; [constructor|]. cbn [flat_map].
  apply Forall_app. split; [|exact IH].
  pose proof (encoded_plainly_ascii c Hc) as E. unfold encoded_plainly in E.
  rewrite Hc in E. cbn [implb] in E. apply andb_true_iff in E as [E _].
  rewrite forallb_forall in E. apply List.Forall_forall. intros b Hb.
  specialize (E b Hb). apply andb_true_iff in E as [E1 E2].
  apply negb_true_iff, N.eqb_neq in E1, E2. by split.
Qed.

Lemma percent_decode_encode s :
  Forall (fun c => query_safe c = true) s ->
  percent_decode (flat_map percent_encode_byte s) = s.
Proof.
  induction 1 as [|c s Hc _ IH]; [reflexivity|]. cbn [flat_map].
  pose proof (encoded_plainly_ascii c Hc) as E. unfold encoded_plainly in E.
  rewrite Hc in E. cbn [implb] in E. apply andb_true_iff in E as [_ E].
  destruct (percent_encode_byte c) as [|b1 [|b2 [|b3 [|b4 r]]]];
    try discriminate; cbn [app].
  - apply andb_true_iff in E as [E1 E2].
    apply N.eqb_eq in E1 as ->. cbn [percent_decode].
    apply negb_true_iff in E2. rewrite E2. by rewrite IH.
  - apply andb_true_iff in E as [E1 E2]. apply N.eqb_eq in E1 as ->.
    cbn [percent_decode]. change (0x25 =? 0x25) with true. cbn match.
    destruct (hexval b2) as [x|]; [|discriminate].
    destruct (hexval b3) as [y|]; [|discriminate].
    apply N.eqb_eq in E2 as ->. by rewrite IH.
Qed.

Lemma utf8_decode_ascii s :
  Forall (fun c => c < 0x80) s -> utf8_decode None s = s.
Proof.
  induction 1 as [|c s Hc _ IH]; [reflexivity|]. cbn [utf8_decode].
  unfold lead_byte.
  replace (c <=? 0x7F) with true by (symmetry; apply N.leb_le; lia).
  cbn [fst snd app]. by rewrite IH.
Qed.

Lemma utf16_encode_ascii s :
  Forall (fun c => c < 0x80) s -> flat_map utf16_encode s = s.
Proof.
  induction 1 as [|c s Hc _ IH]; [reflexivity|]. cbn [flat_map].
  rewrite IH. unfold utf16_encode.
  by replace (c <? 0x10000) with true by (symmetry; apply N.ltb_lt; lia).
Qed.

Lemma decode_component_encode s :
  Forall (fun c => query_safe c = true) s ->
  decode_component (flat_map percent_encode_byte s) = s.
Proof.
  intros H. unfold decode_component.
  assert (Forall (fun c => c < 0x80) s) as Ha.
  { eapply Forall_impl; [exact H|]. intros c. apply query_safe_ascii. }
  assert (map (fun b => if b =? 0x2B then 0x20 else b)
            (flat_map percent_encode_byte s)
          = flat_map percent_encode_byte s) as ->.
  { pose proof (encoded_no_separator s H) as Hn.
    induction Hn as [|b l [_ Hb] _ IH]; [reflexivity|]. cbn [map].
    replace (b =? 0x2B) with false by (symmetry; by apply N.eqb_neq).
    by rewrite IH. }
  rewrite (percent_decode_encode s H), (utf8_decode_ascii s Ha).
  by apply utf16_encode_ascii.
Qed.

Lemma name_value_token e : name_value (js "token=" ++ e) = (js "token", e).
Proof. reflexivity. Qed.

(** The parameters read off a URL that is a plain path, [?token=] and a
    value of [query_safe] code units. *)
Lemma searchParams_of_token path s :
  path <> [] ->
  Forall (fun c => path_char c = true) path ->
  Forall (fun c => query_safe c = true) s ->
  searchParams_of (path ++ js "?token=" ++ s) = [(js "token", as_delivered s)].
Proof.
  intros Hne Hpath Hs.
  assert (Forall (fun c => 0x20 < c /\ c < 0x7F /\ c <> 0x3F /\ c <> 0x23) path)
    as Hp.
  { eapply Forall_impl; [exact Hpath|]. intros c Hc. unfold path_char in Hc.
    repeat (apply andb_true_iff in Hc as [Hc ?]).
    repeat match goal with
           | H : negb _ = true |- _ => apply negb_true_iff, N.eqb_neq in H
           | H : (_ <? _) = true |- _ => apply N.ltb_lt in H
           end. by repeat split. }
  assert (Forall (fun c => c < 0x80) s) as Ha.
  { eapply Forall_impl; [exact Hs|]. intros c. apply query_safe_ascii. }
  assert (Forall (fun c => c <> 0x23) s) as Hh.
  { eapply Forall_impl; [exact Hs|]. intros c Hc. unfold query_safe in Hc.
    apply andb_true_iff in Hc as [_ Hc]. apply negb_true_iff in Hc.
    intros ->. discriminate. }
  unfold searchParams_of, url_query.
  (* the input as scalar values *)
  rewrite scalar_values_ascii.
  2:{ apply Forall_app. split.
      - eapply Forall_impl; [exact Hp|]. intros c (_ & H & _). lia.
      - apply Forall_app. split; [|exact Ha]. spell (js "?token=").
        repeat (constructor; [lia|]). constructor. }
  (* stripped at both ends *)
  assert (strip (path ++ js "?token=" ++ s)
          = path ++ js "?token=" ++ strip_trailing s) as ->.
  { unfold strip.
    assert (strip_leading (path ++ js "?token=" ++ s) = path ++ js "?token=" ++ s)
      as ->.
    { destruct Hp as [|c path (Hc & _) _]; [by destruct Hne|].
      cbn [app strip_leading]. unfold isC0ControlOrSpace.
      by replace (c <=? 0x20) with false by (symmetry; apply N.leb_gt; lia). }
    change (js "?token=") with (js "?token" ++ [0x3D]).
    rewrite <- (app_assoc (js "?token")), (app_assoc path).
    change ([0x3D] ++ s) with (0x3D :: s).
    replace ((path ++ js "?token") ++ 0x3D :: s)
      with (((path ++ js "?token") ++ [0x3D]) ++ s)
      by (by rewrite <- app_assoc).
    rewrite strip_trailing_app by lia.
    rewrite <- !app_assoc. reflexivity. }
  assert (Forall (fun c => query_safe c = true) (strip_trailing s)) as Hs'
    by (by apply strip_trailing_Forall).
  assert (Forall (fun c => c <> 0x23) (strip_trailing s)) as Hh'
    by (by apply strip_trailing_Forall).
  (* TAB, LF and CR removed *)
  rewrite !List.filter_app.
  rewrite (filter_all _ path).
  2:{ eapply Forall_impl; [exact Hp|]. intros c (Hc & _).
      apply negb_true_iff. unfold isTabOrNewline.
      repeat (apply orb_false_iff; split); apply N.eqb_neq; lia. }
  change (List.filter _ (js "?token=")) with (js "?token=").
  fold (as_delivered s).
  assert (Forall (fun c => query_safe c = true) (as_delivered s)) as Hd
    by (by apply filter_Forall).
  assert (Forall (fun c => c <> 0x23) (as_delivered s)) as Hdh
    by (by apply filter_Forall).
  (* no fragment; the query *)
  rewrite before_hash_none.
  2:{ apply Forall_app. split.
      - eapply Forall_impl; [exact Hp|]. by intros c (_ & _ & _ & H).
      - apply Forall_app. split; [|exact Hdh]. spell (js "?token=").
        repeat (constructor; [discriminate|]). constructor. }
  change (js "?token=" ++ as_delivered s)
    with (0x3F :: js "token=" ++ as_delivered s).
  rewrite after_question_first.
  2:{ eapply Forall_impl; [exact Hp|]. by intros c (_ & _ & H & _). }
  cbn [fmap option_fmap option_map].
  rewrite flat_map_app.
  change (flat_map percent_encode_query (js "token=")) with (js "token=").
  assert (flat_map percent_encode_query (as_delivered s)
          = flat_map percent_encode_byte (as_delivered s)) as ->.
  { induction Hd as [|c l Hc _ IH]; [reflexivity|]. cbn [flat_map].
    rewrite IH by (by inversion Hdh).
    by rewrite percent_encode_query_ascii by (by apply query_safe_ascii). }
  (* the parameters *)
  unfold urlencoded_parse. rewrite split_on_none.
  2:{ apply Forall_app. split.
      - spell (js "token="). repeat (constructor; [discriminate|]). constructor.
      - eapply Forall_impl; [apply (encoded_no_separator _ Hd)|].
        by intros b [H _]. }
  cbn [rev]. rewrite app_nil_l.
  change (js "token=" ++ ?e) with (0x74 :: js "oken=" ++ e).
  cbn [List.filter map].
  change (0x74 :: js "oken=" ++ ?e) with (js "token=" ++ e).
  rewrite name_value_token. cbn [fst snd].
  rewrite (decode_component_encode _ Hd). reflexivity.
Qed.

Lemma token_received_token path s :
  path <> [] ->
  Forall (fun c => path_char c = true) path ->
  Forall (fun c => query_safe c = true) s ->
  token_received (path ++ js "?token=" ++ s) = Some (as_delivered s).
Proof.
  intros Hne Hpath Hs. unfold token_received, request_for. cbn [searchParams].
  rewrite (searchParams_of_token path s Hne Hpath Hs). cbn [searchParams_get].
  unfold JS.eqb. by rewrite bool_decide_eq_true_2.
Qed.

Lemma forallb_Forall {A} (f : A -> bool) l :
  forallb f l = true -> Forall (fun x => f x = true) l.
Proof.
  intros H. rewrite forallb_forall in H. apply List.Forall_forall. exact H.
Qed.

(** What the upstream reads off the URL the handler fetches. *)
Lemma upstream_receives tok :
  Forall (fun c => query_safe c = true) tok ->
  token_received (UPSTREAM ++ tok) = Some (as_delivered tok).
Proof.
  intros H.
  change UPSTREAM
    with (js "https://crypto-research-agent-api-yvc3.onrender.com/research"
          ++ js "?token=").
  rewrite <- app_assoc. apply token_received_token; [discriminate| |exact H].
  apply forallb_Forall. by vm_compute.
Qed.

(** What the proxy reads off the URL the page fetches. *)
Lemma proxy_receives s :
  Forall (fun c => query_safe c = true) s ->
  token_received (js "/api/research?token=" ++ s) = Some (as_delivered s).
Proof.
  intros H.
  change (js "/api/research?token=") with (js "/api/research" ++ js "?token=").
  rewrite <- app_assoc. apply token_received_token; [discriminate| |exact H].
  apply forallb_Forall. by vm_compute.
Qed.

Lemma as_delivered_plain s : query_plain s -> as_delivered s = s.
Proof.
  intros (Hs & body & last & -> & Hlast). unfold as_delivered.
  rewrite strip_trailing_end by exact Hlast. apply filter_all.
  eapply Forall_impl; [exact Hs|]. intros c [_ Hc]. by rewrite Hc.
Qed.

(** Spaces before the value stay, white space after it goes. *)
Lemma as_delivered_padded pre core post :
  spaces pre -> query_plain core -> Forall (fun c => c <= 0x20) post ->
  as_delivered (pre ++ core ++ post) = pre ++ core.
Proof.
  intros Hpre (Hs & body & last & -> & Hlast) Hpost. unfold as_delivered.
  replace (pre ++ (body ++ [last]) ++ post)
    with (((pre ++ body) ++ [last]) ++ post) by (by rewrite <- !app_assoc).
  rewrite strip_trailing_blank by assumption.
  rewrite <- app_assoc. apply filter_all, Forall_app. split.
  - eapply Forall_impl; [exact Hpre|]. by intros c ->.
  - eapply Forall_impl; [exact Hs|]. intros c [_ Hc]. by rewrite Hc.
Qed.

Lemma padded_query_safe pre core post :
  spaces pre -> query_plain core -> Forall (fun c => c <= 0x20) post ->
  Forall (fun c => query_safe c = true) (pre ++ core ++ post).
Proof.
  intros Hpre (Hs & _) Hpost. apply Forall_app. split; [|apply Forall_app; split].
  - eapply Forall_impl; [exact Hpre|]. by intros c ->.
  - eapply Forall_impl; [exact Hs|]. by intros c [Hc _].
  - eapply Forall_impl; [exact Hpost|]. intros c Hc. cbv beta in Hc.
    unfold query_safe.
    apply andb_true_iff. split; [apply N.ltb_lt; lia|].
    apply negb_true_iff. repeat (apply orb_false_iff; split); apply N.eqb_neq; lia.
Qed.

End Delivery.

(** ** The URL of a request *)

Lemma ascii_lower_whitespace c :
  isWhiteSpace c = true ->
  (if ((0x41 <=? c) && (c <=? 0x5A))%N then (c + 32)%N else c) = c.
Proof.
  intros H. destruct ((0x41 <=? c) && (c <=? 0x5A))%N eqn:E; [|reflexivity].
  exfalso. apply andb_true_iff in E as [E1 E2].
  apply N.leb_le in E1, E2. unfold isWhiteSpace in H.
  repeat (apply orb_true_iff in H as [H|H]);
    try (apply andb_true_iff in H as [H1 H2]; apply N.leb_le in H1, H2; lia);
    apply N.eqb_eq in H; lia.
Qed.

Lemma ascii_lower_blank s : blank s -> Demo.ascii_lower s = s.
Proof.
  unfold Demo.ascii_lower. induction 1 as [|c s Hc _ IH]; [reflexivity|].
  simpl. rewrite IH. f_equal. by apply ascii_lower_whitespace.
Qed.

Lemma ascii_lower_keeps_outer_whitespace :
  keeps_outer_whitespace (toLowerCase Demo.platform).
Proof.
  intros pre core post Hpre Hpost. simpl. unfold Demo.ascii_lower.
  rewrite !map_app.
  change (map ?f pre) with (Demo.ascii_lower pre).
  change (map ?f post) with (Demo.ascii_lower post).
  rewrite (ascii_lower_blank pre Hpre), (ascii_lower_blank post Hpost).
  reflexivity.
Qed.

(** C10, as the code has it: a field with a non-blank character is kept
    by the filter as it was typed, and the string handed to [fetch] is
    [/api/research?token=] followed by the lower-cased field, untrimmed and
    unencoded.  The [token] parameter the proxy reads off that URL is not
    that string: of a value of ASCII code units without [#], [&], [+] and
    [%] the end is stripped and TAB, LF and CR are removed; so spaces
    before the token arrive, and white space after it does not (on a
    platform whose lower-casing leaves outer white space alone, as
    ECMAScript's does). *)
Theorem request_token_as_received (P : Platform) (w : World) (st : State)
    (k : nat) (t : jsstring) :
  tokens st !! k = Some t ->
  ~ blank t ->
  let st' := handleSubmit P w st in
  exists i,
    validTokens (tokens st) !! i = Some t
    /\ requests st' !! (length (requests st) + i)%nat
       = Some (js "/api/research?token=" ++ toLowerCase P t)
    /\ (Forall (fun c => query_safe c = true) (toLowerCase P t) ->
        token_received (js "/api/research?token=" ++ toLowerCase P t)
        = Some (as_delivered (toLowerCase P t)))
    /\ (keeps_outer_whitespace (toLowerCase P) ->
        forall pre core post,
          t = pre ++ core ++ post ->
          spaces pre -> ascii_blank post ->
          query_plain (toLowerCase P core) ->
          token_received (js "/api/research?token=" ++ toLowerCase P t)
          = Some (pre ++ toLowerCase P core)).
Proof.
  intros Hk Hnb st'. subst st'.
  assert (t ∈ validTokens (tokens st)) as Hin.
  { apply validTokens_keeps; [|exact Hnb]. apply list_elem_of_lookup. by exists k. }
  apply list_elem_of_lookup in Hin as [i Hi]. exists i.
  split; [exact Hi|]. split; [|split].
  - rewrite handleSubmit_requests, lookup_app_r by lia.
    replace (length (requests st) + i - length (requests st))%nat with i by lia.
    change (map ?f ?l) with (f <$> l). by rewrite list_lookup_fmap, Hi.
  - apply proxy_receives.
  - intros Hkeep pre core post -> Hpre Hpost Hcore.
    assert (blank pre) as Bpre.
    { eapply Forall_impl; [exact Hpre|]. by intros c ->. }
    assert (blank post) as Bpost.
    { eapply Forall_impl; [exact Hpost|]. by intros c [Hc _]. }
    assert (Forall (fun c => (c <= 0x20)%N) post) as Lpost.
    { eapply Forall_impl; [exact Hpost|]. by intros c [_ Hc]. }
    rewrite (Hkeep pre core post Bpre Bpost).
    rewrite proxy_receives by (by apply padded_query_safe).
    by rewrite as_delivered_padded.
Qed.

Lemma request_token_as_received_witness :
  tokens Demo.padded !! 0%nat = Some (js " BTC ")
  /\ ~ blank (js " BTC ")
  /\ requests (handleSubmit Demo.platform Demo.in_order Demo.padded)
     = [js "/api/research?token= btc "]
  /\ token_received (js "/api/research?token= btc ") = Some (js " btc").
Proof.
  assert (~ blank (js " BTC ")) as Hnb.
  { intros H. apply blank_forallb in H. vm_compute in H. discriminate. }
  destruct (request_token_as_received Demo.platform Demo.in_order Demo.padded
              0 (js " BTC ") eq_refl Hnb)
    as (i & Hi & Hreq & _ & Hparts).
  split; [reflexivity|]. split; [exact Hnb|]. split; [by vm_compute|].
  apply (Hparts ascii_lower_keeps_outer_whitespace (js " ") (js "BTC") (js " ")
           eq_refl).
  - by repeat constructor.
  - by repeat constructor.
  - split.
    + by repeat constructor.
    + by exists (js "bt"), 0x63%N.
Defined.

(** C10 fails as stated: the field [ BTC ], a space on either side, is
    fetched as [/api/research?token= btc ], and the proxy reads the
    parameter [ btc]: the space after the token is gone. *)
Lemma request_keeps_whitespace_counterexample :
  ~ blank (js " BTC ")
  /\ requests (handleSubmit Demo.platform Demo.in_order Demo.padded)
     = [request_url Demo.platform (js " BTC ")]
  /\ toLowerCase Demo.platform (js " BTC ") = js " btc "
  /\ token_received (request_url Demo.platform (js " BTC ")) = Some (js " btc")
  /\ js " btc" <> toLowerCase Demo.platform (js " BTC ").
Proof.
  split.
  { intros H. apply blank_forallb in H. vm_compute in H. discriminate. }
  split; [by vm_compute|]. split; [by vm_compute|].
  split; [by vm_compute|]. by vm_compute.
Qed.

(** ** The token fields *)

Section Fields.

Lemma filteri_all {A} (f : A -> nat -> bool) (l : list A) : forall base,
  (forall x i, base <= i -> f x i = true) -> filteri f base l = l.
Proof.
  induction l as [|x l IH]; intros base H; [reflexivity|].
  cbn [filteri]. rewrite (H x base) by lia. f_equal.
  apply IH. intros y i Hi. apply H. lia.
Qed.

(** Filtering on [i !== index] is deleting position [index]. *)
Lemma filteri_delete {A} (l : list A) : forall base index,
  filteri (fun _ i => negb (i =? base + index)) base l = delete index l.
Proof.
  induction l as [|x l IH]; intros base index; [reflexivity|].
  cbn [filteri]. destruct index as [|index].
  - rewrite Nat.add_0_r, Nat.eqb_refl. cbn [negb].
    apply filteri_all. intros y i Hi.
    destruct (Nat.eqb_spec i base) as [E|_]; [lia|reflexivity].
  - destruct (Nat.eqb_spec base (base + S index)) as [E|_]; [lia|].
    cbn [negb]. change (delete (S index) (x :: l)) with (x :: delete index l).
    f_equal. replace (base + S index) with (S base + index) by lia. apply IH.
Qed.

Lemma removeTokenField_delete tokens index :
  1 < length tokens -> removeTokenField tokens index = delete index tokens.
Proof.
  intros H. unfold removeTokenField.
  destruct (Nat.ltb_spec 1 (length tokens)) as [_|?]; [|lia].
  apply (filteri_delete tokens 0 index).
Qed.

Lemma removeTokenField_single tokens index :
  length tokens <= 1 -> removeTokenField tokens index = tokens.
Proof.
  intros H. unfold removeTokenField.
  destruct (Nat.ltb_spec 1 (length tokens)) as [?|_]; [lia|reflexivity].
Qed.

Lemma removeTokenField_length tokens index :
  1 <= length tokens -> 1 <= length (removeTokenField tokens index).
Proof.
  intros H. destruct (decide (1 < length tokens)) as [Hlt|Hge].
  - rewrite removeTokenField_delete by exact Hlt.
    destruct (decide (index < length tokens)) as [Hi|Hi].
    + rewrite length_delete by (by apply lookup_lt_is_Some). lia.
    + rewrite delete_take_drop, take_ge, drop_ge, app_nil_r by lia. exact H.
  - rewrite removeTokenField_single by lia. exact H.
Qed.

Lemma field_step_length tokens tokens' :
  field_step tokens tokens' -> 1 <= length tokens -> 1 <= length tokens'.
Proof.
  intros [tk idx value tk' Hidx Hch|tk|tk idx Hidx] H.
  - unfold handleTokenChange in Hch.
    destruct (Nat.ltb_spec idx (length tk)) as [_|?]; [|lia].
    injection Hch as <-. by rewrite length_insert.
  - unfold addTokenField. rewrite length_app. simpl. lia.
  - by apply removeTokenField_length.
Qed.

Lemma reachable_length tokens : reachable tokens -> 1 <= length tokens.
Proof.
  induction 1 as [|tokens tokens' _ IH Hstep]; [simpl; lia|].
  by apply (field_step_length tokens).
Qed.

End Fields.

(** C6: on a list the page can hold, the length is at least 1 and stays
    so after a removal; removing from a list of length 1 changes nothing;
    removing field [index] from a longer list drops exactly that entry:
    the entries before it stay where they are, the entries after it move
    one place to the left. *)
Theorem removeTokenField_keeps_one (tokens : list jsstring) (index : nat) :
  reachable tokens ->
  (1 <= length tokens)%nat
  /\ (1 <= length (removeTokenField tokens index))%nat
  /\ (length tokens = 1%nat -> removeTokenField tokens index = tokens)
  /\ ((1 < length tokens)%nat -> (index < length tokens)%nat ->
        reachable (removeTokenField tokens index)
        /\ removeTokenField tokens index = take index tokens ++ drop (S index) tokens
        /\ length (removeTokenField tokens index) = (length tokens - 1)%nat
        /\ (forall j, (j < index)%nat ->
              removeTokenField tokens index !! j = tokens !! j)
        /\ (forall j, (index <= j)%nat ->
              removeTokenField tokens index !! j = tokens !! S j)).
Proof.
  intros Hreach.
  pose proof (reachable_length tokens Hreach) as Hlen.
  split; [exact Hlen|].
  split; [by apply removeTokenField_length|].
  split; [intros H1; apply removeTokenField_single; lia|].
  intros Hlt Hidx.
  split; [apply (reach_step tokens); [exact Hreach|by apply step_remove]|].
  rewrite removeTokenField_delete by exact Hlt.
  split; [apply delete_take_drop|].
  split; [rewrite length_delete by (by apply lookup_lt_is_Some); lia|].
  split; intros j Hj.
  - by apply list_lookup_delete_lt.
  - by apply list_lookup_delete_ge.
Qed.

Lemma removeTokenField_keeps_one_witness :
  reachable [js "btc"; js "eth"; js "sol"]
  /\ removeTokenField [js "btc"; js "eth"; js "sol"] 1 = [js "btc"; js "sol"]
  /\ reachable [js "btc"]
  /\ removeTokenField [js "btc"] 0 = [js "btc"].
Proof.
  assert (reachable [js "btc"]) as R1.
  { apply (reach_step [empty]); [apply reach_init|].
    apply (step_change [empty] 0 (js "btc")); [simpl; lia|reflexivity]. }
  assert (reachable [js "btc"; js "eth"; js "sol"]) as R3.
  { apply (reach_step [js "btc"; js "eth"; empty]).
    2:{ apply (step_change _ 2 (js "sol")); [simpl; lia|reflexivity]. }
    apply (reach_step [js "btc"; js "eth"]); [|apply step_add].
    apply (reach_step [js "btc"; empty]).
    2:{ apply (step_change _ 1 (js "eth")); [simpl; lia|reflexivity]. }
    apply (reach_step [js "btc"]); [exact R1|apply step_add]. }
  destruct (removeTokenField_keeps_one [js "btc"; js "eth"; js "sol"] 1 R3)
    as (_ & _ & _ & Hmany).
  destruct (Hmany ltac:(simpl; lia) ltac:(simpl; lia)) as (_ & Hdel & _).
  destruct (removeTokenField_keeps_one [js "btc"] 0 R1) as (_ & _ & Hone & _).
  split; [exact R3|]. split; [rewrite Hdel; reflexivity|].
  split; [exact R1|]. exact (Hone eq_refl).
Defined.

(** ** The proxy route *)

Lemma searchParams_get_None name ps :
  name ∉ map fst ps -> searchParams_get name ps = None.
Proof.
  induction ps as [|[k v] ps IH]; intros H; [reflexivity|]. simpl in *.
  apply not_elem_of_cons in H as [Hne Hrest].
  unfold JS.eqb. rewrite bool_decide_eq_false_2 by congruence. by apply IH.
Qed.

(** C4, as the code has it.  An empty first [token] parameter is answered
    400 and nothing is fetched.  A non-empty one makes the handler fetch,
    once and whatever comes of it, the fixed upstream URL followed by that
    value as it stands, unencoded: the upstream reads the same value off
    that URL when the value is [query_plain], and of any value of
    [query_safe] code units what URL parsing leaves.  When the upstream
    answers with a body that is JSON, the reply has status 200 whatever
    the upstream status was, and its body is the [JSON.stringify] text of
    the value the upstream body parsed to; when the upstream cannot be
    reached or its body is not JSON, no reply of the handler's own is
    produced. *)
Theorem proxy_forwards_token (upstream : jsstring -> FetchOutcome)
    (req : NextRequest) (tok : jsstring) :
  searchParams_get (js "token") (searchParams req) = Some tok ->
  (tok = empty ->
     GET upstream req = (NextResponse_json 400 token_required, []))
  /\ (tok <> empty ->
      snd (GET upstream req) = [UPSTREAM ++ tok]
      /\ (Forall (fun c => query_safe c = true) tok ->
          token_received (UPSTREAM ++ tok) = Some (as_delivered tok))
      /\ (query_plain tok -> token_received (UPSTREAM ++ tok) = Some tok)
      /\ (forall res data,
            upstream (UPSTREAM ++ tok) = Responded res ->
            json_of res = Value data ->
            fst (GET upstream req) = NextResponse_json 200 data
            /\ body_text (fst (GET upstream req)) = Some (JSON_stringify data))
      /\ (upstream (UPSTREAM ++ tok) = NetworkError
          \/ (exists res, upstream (UPSTREAM ++ tok) = Responded res
                          /\ json_of res = Throws) ->
          exists e, fst (GET upstream req) = Uncaught e)).
Proof.
  intros Hget. unfold GET. rewrite Hget. split.
  { by intros ->. }
  intros Hne. destruct tok as [|c tok]; [by destruct Hne|]. cbn [truthy negb].
  split; [|split; [|split; [|split]]].
  - destruct (upstream (UPSTREAM ++ c :: tok)) as [|res]; [reflexivity|].
    by destruct (json_of res).
  - apply upstream_receives.
  - intros Hplain. rewrite upstream_receives by (eapply Forall_impl;
      [exact (proj1 Hplain)|]; by intros d [Hd _]).
    by rewrite as_delivered_plain.
  - intros res data Hup Hjson. by rewrite Hup, Hjson.
  - intros [Hnet|(res & Hres & Hj)].
    + rewrite Hnet. by eexists.
    + rewrite Hres, Hj. by eexists.
Qed.

Lemma proxy_forwards_token_witness :
  searchParams_get (js "token") [(js "token", js "btc")] = Some (js "btc")
  /\ snd (GET (fun _ => Responded {| status := 503; body := Demo.bitcoin |})
            {| searchParams := [(js "token", js "btc")] |})
     = [js "https://crypto-research-agent-api-yvc3.onrender.com/research?token=btc"]
  /\ token_received
       (js "https://crypto-research-agent-api-yvc3.onrender.com/research?token=btc")
     = Some (js "btc")
  /\ (exists data,
        fst (GET (fun _ => Responded {| status := 503; body := Demo.bitcoin |})
               {| searchParams := [(js "token", js "btc")] |})
        = NextResponse_json 200 data)
  /\ body_text
       (fst (GET (fun _ => Responded {| status := 503; body := Demo.bitcoin |})
               {| searchParams := [(js "token", js "btc")] |}))
     = Some Demo.bitcoin.
Proof.
  destruct (proxy_forwards_token
              (fun _ => Responded {| status := 503; body := Demo.bitcoin |})
              {| searchParams := [(js "token", js "btc")] |} (js "btc") eq_refl)
    as (_ & H).
  destruct (H ltac:(discriminate)) as (Hfetch & _ & Hsame & Hreply & _).
  destruct (JSON_parse Demo.bitcoin) as [data|] eqn:E;
    [|vm_compute in E; discriminate].
  destruct (Hreply {| status := 503; body := Demo.bitcoin |} data eq_refl E)
    as (H200 & Hbody).
  split; [reflexivity|]. split; [exact Hfetch|]. split; [|split].
  - apply Hsame. split.
    + by repeat constructor.
    + by exists (js "bt"), 0x63%N.
  - by exists data.
  - rewrite Hbody. vm_compute in E. injection E as <-. by vm_compute.
Defined.

(** C4 fails as stated, three ways.  A request that carries [token] with
    an empty value is answered 400 and nothing is forwarded.  The token
    [btc ], with a space at its end, is fetched as it stands and the
    upstream reads [btc] off that URL: not the same token value.  An
    upstream body [{"price":1e400}] is answered with the body
    [{"price":null}]: not the upstream body. *)
Lemma proxy_forwards_token_counterexample :
  (carries (js "token") {| searchParams := [(js "token", empty)] |}
   /\ GET (Demo.always_bitcoin 0) {| searchParams := [(js "token", empty)] |}
      = (NextResponse_json 400 token_required, []))
  /\ (snd (GET (Demo.always_bitcoin 0)
             {| searchParams := [(js "token", js "btc ")] |})
      = [UPSTREAM ++ js "btc "]
      /\ token_received (UPSTREAM ++ js "btc ") = Some (js "btc"))
  /\ (Demo2.upstream_huge (UPSTREAM ++ js "btc")
      = Responded {| status := 200; body := Demo.text "{'price':1e400}" |}
      /\ body_text (fst (GET Demo2.upstream_huge
                           {| searchParams := [(js "token", js "btc")] |}))
         = Some (Demo.text "{'price':null}")).
Proof.
  split; [split; [left|reflexivity]|]. split; [split|split].
  - by vm_compute.
  - by vm_compute.
  - reflexivity.
  - by vm_compute.
Qed.

(** C5: without a [token] parameter the handler replies 400 with
    [{error: 'Token is required'}] and fetches nothing. *)
Theorem proxy_requires_token (upstream : jsstring -> FetchOutcome)
    (req : NextRequest) :
  ~ carries (js "token") req ->
  GET upstream req
  = (NextResponse_json 400 (JObj [(js "error", JStr (js "Token is required"))]),
     []).
Proof.
  intros H. unfold GET. by rewrite (searchParams_get_None _ _ H).
Qed.

Lemma proxy_requires_token_witness :
  ~ carries (js "token") {| searchParams := [(js "symbol", js "btc")] |}
  /\ GET (Demo.always_bitcoin 0) {| searchParams := [(js "symbol", js "btc")] |}
     = (NextResponse_json 400 (JObj [(js "error", JStr (js "Token is required"))]),
        []).
Proof.
  assert (~ carries (js "token") {| searchParams := [(js "symbol", js "btc")] |}) as H.
  { unfold carries. simpl. intros H.
    apply elem_of_cons in H as [H|H]; [discriminate|inversion H]. }
  split; [exact H|]. exact (proxy_requires_token _ _ H).
Defined.

(** ** The dark-mode flag *)

Lemma reads_app ops1 ops2 : reads (ops1 ++ ops2) = reads ops1 ++ reads ops2.
Proof. apply omap_app. Qed.

(** The calls [mount] makes: one [getItem], then only [setItem]. *)
Lemma mount_reads b : reads (calls (browser_of (mount b))) = reads (calls b) ++ [KEY].
Proof.
  unfold mount, getItem.
  destruct (savedDark_value (localStorage b !! KEY)) as [[| [|] | | | |]|];
    cbn [browser_of persistDark setItem classList_toggle_dark calls];
    rewrite ?reads_app; cbn [reads omap list_omap]; rewrite ?app_nil_r;
    reflexivity.
Qed.

(** C8, as the code has it: mounting reads the store exactly once; the
    flag is [false] when nothing (or the empty string) is stored; a stored
    text that is not JSON makes the first effect throw, and no flag comes
    out of it. *)
Theorem mount_reads_dark_once (b : Browser) :
  reads (calls (browser_of (mount b))) = reads (calls b) ++ [KEY]
  /\ (localStorage b !! KEY = None \/ localStorage b !! KEY = Some empty ->
        exists b', mount b = Mounted false b')
  /\ (forall stored,
        localStorage b !! KEY = Some stored ->
        stored <> empty ->
        JSON_parse stored = Throws ->
        exists b', mount b = Crashed b').
Proof.
  split; [apply mount_reads|]. split.
  - intros [H|H]; unfold mount, getItem; rewrite H; simpl; eauto.
  - intros stored H Hne Hp. unfold mount, getItem. rewrite H.
    destruct stored as [|c stored]; [by destruct Hne|].
    cbn [savedDark_value truthy]. rewrite Hp. eauto.
Qed.

Lemma mount_reads_dark_once_witness :
  (exists b', mount (Demo.browser_with None) = Mounted false b')
  /\ (exists b', mount (Demo.browser_with (Some empty)) = Mounted false b')
  /\ (exists b', mount (Demo.browser_with (Some (js "undefined"))) = Crashed b').
Proof.
  destruct (mount_reads_dark_once (Demo.browser_with None)) as (_ & Habsent & _).
  destruct (mount_reads_dark_once (Demo.browser_with (Some empty)))
    as (_ & Hempty & _).
  destruct (mount_reads_dark_once (Demo.browser_with (Some (js "undefined"))))
    as (_ & _ & Hcrash).
  split; [|split].
  - apply Habsent. by left.
  - apply Hempty. right. apply lookup_singleton_eq.
  - apply (Hcrash (js "undefined")).
    + apply lookup_singleton_eq.
    + discriminate.
    + vm_compute. reflexivity.
Defined.

(** C8 fails as stated: with a stored text that is not JSON the first
    effect throws; the flag does not come out [false]. *)
Lemma mount_malformed_counterexample :
  localStorage (Demo.browser_with (Some (js "undefined"))) !! KEY
    = Some (js "undefined")
  /\ JSON_parse (js "undefined") = Throws
  /\ savedDark_value (Some (js "undefined")) <> Value (JBool false)
  /\ forall b', mount (Demo.browser_with (Some (js "undefined"))) <> Mounted false b'.
Proof.
  assert (JSON_parse (js "undefined") = Throws) as Hp by (vm_compute; reflexivity).
  split; [apply lookup_singleton_eq|]. split; [exact Hp|]. split.
  - cbn [savedDark_value js truthy]. simpl. rewrite Hp. discriminate.
  - intros b'. unfold mount, getItem. simpl localStorage.
    rewrite lookup_singleton_eq. cbn [savedDark_value]. simpl truthy.
    rewrite Hp. discriminate.
Qed.

(** C9: whatever the flag, the text the second effect stores for it reads
    back as that flag: [JSON.parse(JSON.stringify(dark))] is [dark]; a
    reload mounts the page with the flag the store was written for, with
    its class and its stored text; so after a toggle a reload restores the
    toggled mode. *)
Theorem dark_roundtrip (dark : bool) (b : Browser) :
  localStorage (persistDark dark b) !! KEY = Some (JSON_stringify_bool dark)
  /\ savedDark_value (localStorage (persistDark dark b) !! KEY) = Value (JBool dark)
  /\ (exists b',
        mount (reload (persistDark dark b)) = Mounted dark b'
        /\ darkClass b' = dark
        /\ localStorage b' !! KEY = Some (JSON_stringify_bool dark))
  /\ exists b',
       mount (reload (snd (toggle dark b))) = Mounted (fst (toggle dark b)) b'.
Proof.
  assert (forall d : bool, localStorage (persistDark d b) !! KEY
                             = Some (JSON_stringify_bool d)) as Hl.
  { intros d. unfold persistDark, setItem. simpl. apply lookup_insert_eq. }
  assert (forall d : bool, savedDark_value (Some (JSON_stringify_bool d))
                             = Value (JBool d)) as Hv.
  { intros d. destruct d; vm_compute; reflexivity. }
  assert (forall d : bool, exists b',
            mount (reload (persistDark d b)) = Mounted d b'
            /\ darkClass b' = d
            /\ localStorage b' !! KEY = Some (JSON_stringify_bool d)) as Hm.
  { intros d. unfold mount, getItem, reload. cbn [localStorage].
    rewrite Hl, Hv.
    destruct d; eexists; (split; [reflexivity|]); simpl;
      (split; [reflexivity|]); apply lookup_insert_eq. }
  split; [apply Hl|]. split; [by rewrite Hl|]. split; [apply Hm|].
  destruct (Hm (negb dark)) as (b' & Hb' & _). by exists b'.
Qed.

(** * Further properties of the page and of the route *)

(** ** Editing the token fields *)

Section FieldEdits.

Lemma validTokens_app l1 l2 :
  validTokens (l1 ++ l2) = validTokens l1 ++ validTokens l2.
Proof. apply List.filter_app. Qed.

Lemma validTokens_blank_cons t l : blank t -> validTokens (t :: l) = validTokens l.
Proof.
  intros H. unfold validTokens. simpl.
  apply blank_forallb in H. by rewrite truthy_trim, H.
Qed.

End FieldEdits.

(** X1: typing into a rendered field changes that entry and no other, and
    keeps the number of fields; typing the previous text back restores the
    list. *)
Theorem handleTokenChange_one_entry (tokens : list jsstring) (idx : nat)
    (old value : jsstring) :
  tokens !! idx = Some old ->
  exists tokens',
    handleTokenChange tokens idx value = Some tokens'
    /\ length tokens' = length tokens
    /\ tokens' !! idx = Some value
    /\ (forall j, j <> idx -> tokens' !! j = tokens !! j)
    /\ handleTokenChange tokens' idx old = Some tokens.
Proof.
  intros Hold. apply lookup_lt_Some in Hold as Hlt.
  exists (<[idx := value]> tokens). unfold handleTokenChange.
  destruct (Nat.ltb_spec idx (length tokens)) as [_|?]; [|lia].
  split; [reflexivity|]. split; [apply length_insert|].
  split; [by apply list_lookup_insert_eq|].
  split; [intros j Hj; by apply list_lookup_insert_ne|].
  rewrite length_insert.
  destruct (Nat.ltb_spec idx (length tokens)) as [_|?]; [|lia].
  f_equal. rewrite list_insert_insert_eq. by apply list_insert_id.
Qed.

Lemma handleTokenChange_one_entry_witness :
  [js "btc"; js "et"] !! 1%nat = Some (js "et")
  /\ handleTokenChange [js "btc"; js "et"] 1 (js "eth") = Some [js "btc"; js "eth"]
  /\ handleTokenChange [js "btc"; js "eth"] 1 (js "et") = Some [js "btc"; js "et"].
Proof.
  destruct (handleTokenChange_one_entry [js "btc"; js "et"] 1 (js "et") (js "eth")
              eq_refl) as (tokens' & Hch & _ & _ & _ & Hback).
  split; [reflexivity|].
  assert (tokens' = [js "btc"; js "eth"]) as E.
  { vm_compute in Hch. by injection Hch as <-. }
  subst tokens'. split; [exact Hch|exact Hback].
Defined.

(** X2: adding a field and removing it again gives the list back, on any
    list that has a field. *)
Theorem add_then_remove_restores (tokens : list jsstring) :
  (1 <= length tokens)%nat ->
  removeTokenField (addTokenField tokens) (length tokens) = tokens.
Proof.
  intros H. unfold addTokenField.
  rewrite removeTokenField_delete by (rewrite length_app; simpl; lia).
  rewrite delete_take_drop, take_app_length.
  rewrite drop_ge by (rewrite length_app; simpl; lia).
  apply app_nil_r.
Qed.

Lemma add_then_remove_restores_witness :
  (1 <= length [js "btc"; js "eth"])%nat
  /\ removeTokenField (addTokenField [js "btc"; js "eth"]) 2 = [js "btc"; js "eth"].
Proof.
  assert (1 <= length [js "btc"; js "eth"])%nat as H by (simpl; lia).
  split; [exact H|]. exact (add_then_remove_restores [js "btc"; js "eth"] H).
Defined.

(** X3: the field [addTokenField] appends is blank: a submission made
    after it issues the same requests and ends with the same result set,
    notice and loading flag as one made before it. *)
Theorem added_field_not_submitted (P : Platform) (w : World) (st : State) :
  let st1 := {| tokens := addTokenField (tokens st); results := results st;
                loading := loading st; toasts := toasts st;
                requests := requests st |} in
  validTokens (tokens st1) = validTokens (tokens st)
  /\ requests (handleSubmit P w st1) = requests (handleSubmit P w st)
  /\ results (handleSubmit P w st1) = results (handleSubmit P w st)
  /\ toasts (handleSubmit P w st1) = toasts (handleSubmit P w st)
  /\ loading (handleSubmit P w st1) = loading (handleSubmit P w st).
Proof.
  intros st1.
  assert (validTokens (tokens st1) = validTokens (tokens st)) as E.
  { subst st1. cbn [tokens]. unfold addTokenField.
    rewrite validTokens_app, validTokens_blank_cons by constructor.
    apply app_nil_r. }
  split; [exact E|]. unfold handleSubmit. rewrite E. subst st1. cbn [requests].
  destruct (length (validTokens (tokens st)) =? 0)%nat; [by repeat split|].
  match goal with |- context [allSettled ?ps ?o] => destruct (allSettled ps o) end;
    by repeat split.
Qed.

(** X4: removing a blank field changes nothing of what a submission
    sends: the non-blank fields are the same, in the same order. *)
Theorem removing_blank_keeps_submission (tokens : list jsstring) (index : nat)
    (t : jsstring) :
  tokens !! index = Some t ->
  blank t ->
  validTokens (removeTokenField tokens index) = validTokens tokens.
Proof.
  intros Ht Hb. destruct (decide (1 < length tokens)) as [Hlt|Hge].
  - rewrite removeTokenField_delete by exact Hlt.
    rewrite delete_take_drop.
    rewrite <- (take_drop_middle tokens index t Ht) at 3.
    by rewrite !validTokens_app, validTokens_blank_cons.
  - by rewrite removeTokenField_single by lia.
Qed.

Lemma removing_blank_keeps_submission_witness :
  [js "btc"; js "  "; js "eth"] !! 1%nat = Some (js "  ")
  /\ blank (js "  ")
  /\ validTokens (removeTokenField [js "btc"; js "  "; js "eth"] 1)
     = [js "btc"; js "eth"].
Proof.
  assert (blank (js "  ")) as Hb by repeat constructor.
  split; [reflexivity|]. split; [exact Hb|].
  rewrite (removing_blank_keeps_submission [js "btc"; js "  "; js "eth"] 1
             (js "  ") eq_refl Hb).
  reflexivity.
Defined.

(** X5: [removeTokenField] with an index past the last field removes
    nothing, whatever the length. *)
Theorem removeTokenField_past_end (tokens : list jsstring) (index : nat) :
  (length tokens <= index)%nat ->
  removeTokenField tokens index = tokens.
Proof.
  intros H. destruct (decide (1 < length tokens)%nat) as [Hlt|Hge].
  - rewrite removeTokenField_delete by exact Hlt.
    by rewrite delete_take_drop, take_ge, drop_ge, app_nil_r by lia.
  - apply removeTokenField_single. lia.
Qed.

Lemma removeTokenField_past_end_witness :
  (length [js "btc"; js "eth"] <= 2)%nat
  /\ removeTokenField [js "btc"; js "eth"] 2 = [js "btc"; js "eth"].
Proof.
  assert (length [js "btc"; js "eth"] <= 2)%nat as H by (simpl; lia).
  split; [exact H|]. exact (removeTokenField_past_end _ _ H).
Defined.

(** ** The buttons of the token form *)

Section Buttons.

Lemma field_rows_lookup tokens i :
  field_rows tokens !! i = field_row tokens i <$> tokens !! i.
Proof. unfold field_rows. apply list_lookup_imap. Qed.

End Buttons.

(** X6: every button the form renders acts on an existing field: a remove
    button sits on its own row, is rendered only when there are two fields
    or more, and its click shortens the list by exactly one; the add
    button is on the last row and its click lengthens the list by one.  A
    single field has the add button and nothing else. *)
Theorem rendered_buttons_act (tokens : list jsstring) (row : FieldRow) (b : Button) :
  row ∈ field_rows tokens ->
  b ∈ buttons row ->
  tokens !! row_key row = Some (input_value row)
  /\ match b with
     | RemoveButton idx =>
         idx = row_key row
         /\ (1 < length tokens)%nat
         /\ length (click b tokens) = (length tokens - 1)%nat
         /\ click b tokens = take idx tokens ++ drop (S idx) tokens
     | AddButton =>
         row_key row = (length tokens - 1)%nat
         /\ length (click b tokens) = S (length tokens)
     end.
Proof.
  intros Hrow Hb. apply list_elem_of_lookup in Hrow as [i Hi].
  rewrite field_rows_lookup in Hi.
  destruct (tokens !! i) as [t|] eqn:Et; [|discriminate].
  simpl in Hi. injection Hi as <-. cbn [row_key input_value].
  apply lookup_lt_Some in Et as Hlt. split; [exact Et|].
  cbn [buttons field_row] in Hb.
  assert (forall idx, idx = i -> (1 < length tokens)%nat ->
            idx = i /\ (1 < length tokens)%nat
            /\ length (click (RemoveButton idx) tokens) = (length tokens - 1)%nat
            /\ click (RemoveButton idx) tokens
               = take idx tokens ++ drop (S idx) tokens) as Hrem.
  { intros idx -> Hmany. cbn [click].
    rewrite removeTokenField_delete by exact Hmany.
    split; [reflexivity|]. split; [exact Hmany|].
    split; [|apply delete_take_drop].
    rewrite length_delete by (by apply lookup_lt_is_Some). lia. }
  destruct (Nat.eqb_spec i (length tokens - 1)) as [Hlast|Hnot].
  - apply elem_of_cons in Hb as [->|Hb].
    + split; [exact Hlast|]. cbn [click]. unfold addTokenField.
      rewrite length_app. simpl. lia.
    + destruct (Nat.ltb_spec 1 (length tokens)) as [Hmany|Hone].
      * apply list_elem_of_singleton in Hb as ->. by apply Hrem.
      * inversion Hb.
  - apply list_elem_of_singleton in Hb as ->. apply Hrem; [reflexivity|lia].
Qed.

Lemma rendered_buttons_act_witness :
  map buttons (field_rows [js "btc"; js "eth"])
    = [[RemoveButton 0]; [AddButton; RemoveButton 1]]
  /\ map buttons (field_rows [js "btc"]) = [[AddButton]]
  /\ click (RemoveButton 0) [js "btc"; js "eth"] = [js "eth"].
Proof.
  split; [reflexivity|]. split; [reflexivity|].
  destruct (rendered_buttons_act [js "btc"; js "eth"]
              (field_row [js "btc"; js "eth"] 0 (js "btc")) (RemoveButton 0))
    as (_ & _ & _ & _ & Hclick).
  - apply list_elem_of_lookup. by exists 0%nat.
  - left.
  - rewrite Hclick. reflexivity.
Defined.

(** ** More on a submission *)

Section SubmitMore.

Variable P : Platform.

Lemma handleSubmit_tokens w st : tokens (handleSubmit P w st) = tokens st.
Proof.
  unfold handleSubmit.
  destruct (length (validTokens (tokens st)) =? 0)%nat; [reflexivity|].
  match goal with |- context [allSettled ?ps ?o] => destruct (allSettled ps o) end;
    reflexivity.
Qed.

(** What a submission leaves on screen depends on the fields and on the
    world, not on what was there before. *)
Lemma handleSubmit_fresh w st1 st2 :
  tokens st1 = tokens st2 ->
  results (handleSubmit P w st1) = results (handleSubmit P w st2)
  /\ toasts (handleSubmit P w st1) = toasts (handleSubmit P w st2)
  /\ loading (handleSubmit P w st1) = loading (handleSubmit P w st2).
Proof.
  intros E. unfold handleSubmit. rewrite E.
  destruct (length (validTokens (tokens st2)) =? 0)%nat; [by repeat split|].
  match goal with |- context [allSettled ?ps ?o] => destruct (allSettled ps o) end;
    by repeat split.
Qed.

Lemma handleSubmit_pending w st :
  some_pending w (length (validTokens (tokens st))) ->
  handleSubmit P w st =
    {| tokens := tokens st; results := []; loading := true; toasts := [];
       requests := requests st ++ map (request_url P) (validTokens (tokens st)) |}.
Proof.
  intros (i & Hi & Hnot). unfold handleSubmit.
  destruct (validTokens (tokens st)) as [|t valid] eqn:E; [simpl in Hi; lia|].
  change (length (t :: valid) =? 0)%nat with false. cbv iota.
  rewrite <- E in *. rewrite promises_outcomes.
  rewrite (allSettled_pending _ _ i); [reflexivity| |exact Hnot].
  by rewrite length_map, length_outcomes.
Qed.

Lemma filter_failed_all l :
  (forall o, o ∈ l -> failed P o = true) -> List.filter (failed P) l = l.
Proof.
  induction l as [|o l IH]; intros H; [reflexivity|]. simpl.
  rewrite (H o) by left. f_equal. apply IH. intros o' Ho'. apply H. by right.
Qed.

Lemma filter_failed_none l :
  (forall o, o ∈ l -> failed P o = false) -> List.filter (failed P) l = [].
Proof.
  induction l as [|o l IH]; intros H; [reflexivity|]. simpl.
  rewrite (H o) by left. apply IH. intros o' Ho'. apply H. by right.
Qed.

End SubmitMore.

(** X7: while one request of a submission has not settled, nothing of the
    submission is shown: the result set is empty, there is no notice and
    [loading] stays on, whatever the other requests returned; all the
    requests have been issued. *)
Theorem pending_submission_shows_nothing (P : Platform) (w : World) (st : State) :
  some_pending w (length (validTokens (tokens st))) ->
  let st' := handleSubmit P w st in
  loading st' = true
  /\ results st' = []
  /\ toasts st' = []
  /\ requests st' = requests st ++ map (request_url P) (validTokens (tokens st)).
Proof.
  intros H st'. subst st'. rewrite (handleSubmit_pending P w st H).
  by repeat split.
Qed.

Lemma pending_submission_shows_nothing_witness :
  some_pending Demo2.second_hangs (length (validTokens (tokens Demo.four_fields)))
  /\ successful Demo.platform
       (respond Demo2.second_hangs 0 (js "/api/research?token=btc")) <> None
  /\ results (handleSubmit Demo.platform Demo2.second_hangs Demo.four_fields) = []
  /\ loading (handleSubmit Demo.platform Demo2.second_hangs Demo.four_fields) = true.
Proof.
  assert (some_pending Demo2.second_hangs
            (length (validTokens (tokens Demo.four_fields)))) as H.
  { exists 1%nat. split; [vm_compute; lia|].
    intros Hin. vm_compute in Hin.
    repeat (apply elem_of_cons in Hin as [Hin|Hin]; [discriminate|]).
    inversion Hin. }
  destruct (pending_submission_shows_nothing Demo.platform Demo2.second_hangs
              Demo.four_fields H) as (Hl & Hr & _).
  split; [exact H|]. split; [vm_compute; discriminate|].
  split; [exact Hr|exact Hl].
Defined.

(** X8: submitting again with the same fields and the same answers shows
    the same result set and notice as the first time, and fetches every
    token again: nothing is cached, nothing accumulates. *)
Theorem resubmission_refetches (P : Platform) (w : World) (st : State) :
  let st1 := handleSubmit P w st in
  let st2 := handleSubmit P w st1 in
  let urls := map (request_url P) (validTokens (tokens st)) in
  tokens st2 = tokens st
  /\ results st2 = results st1
  /\ toasts st2 = toasts st1
  /\ loading st2 = loading st1
  /\ requests st2 = requests st ++ urls ++ urls.
Proof.
  intros st1 st2 urls. subst st1 st2 urls.
  pose proof (handleSubmit_tokens P w st) as Et.
  destruct (handleSubmit_fresh P w (handleSubmit P w st) st Et) as (Hr & Hto & Hl).
  split; [by rewrite handleSubmit_tokens|].
  split; [exact Hr|]. split; [exact Hto|]. split; [exact Hl|].
  rewrite !handleSubmit_requests, Et. by rewrite <- app_assoc.
Qed.

(** X9: when every request of a settled submission is accepted, there is
    no notice and the result set has one record per non-blank field. *)
Theorem all_accepted_no_notice (P : Platform) (w : World) (st : State) :
  validTokens (tokens st) <> [] ->
  all_settle w (length (validTokens (tokens st))) ->
  (forall o, o ∈ outcomes P w (tokens st) -> failed P o = false) ->
  let st' := handleSubmit P w st in
  toasts st' = []
  /\ length (results st') = length (validTokens (tokens st))
  /\ loading st' = false.
Proof.
  intros Hne Hall Hok st'. subst st'.
  rewrite (handleSubmit_settled P w st Hne Hall). cbn [toasts results loading].
  pose proof (successful_failed_length P (outcomes P w (tokens st))) as L.
  rewrite (filter_failed_none P _ Hok) in *. simpl in L.
  rewrite length_outcomes in L. split; [reflexivity|]. split; [lia|reflexivity].
Qed.

Lemma all_accepted_no_notice_witness :
  validTokens (tokens Demo.same_twice) <> []
  /\ all_settle Demo.in_order (length (validTokens (tokens Demo.same_twice)))
  /\ toasts (handleSubmit Demo.platform Demo.in_order Demo.same_twice) = []
  /\ length (results (handleSubmit Demo.platform Demo.in_order Demo.same_twice))
     = 2%nat.
Proof.
  assert (validTokens (tokens Demo.same_twice) <> []) as H1
    by (vm_compute; discriminate).
  assert (all_settle Demo.in_order (length (validTokens (tokens Demo.same_twice))))
    as H2.
  { intros i Hi. vm_compute in Hi.
    destruct i as [|[|i]]; [repeat constructor..|lia]. }
  assert (forall o, o ∈ outcomes Demo.platform Demo.in_order (tokens Demo.same_twice)
                    -> failed Demo.platform o = false) as H3.
  { intros o Ho. vm_compute in Ho.
    repeat (apply elem_of_cons in Ho as [->|Ho]; [vm_compute; reflexivity|]).
    inversion Ho. }
  destruct (all_accepted_no_notice Demo.platform Demo.in_order Demo.same_twice
              H1 H2 H3) as (Hto & Hlen & _).
  split; [exact H1|]. split; [exact H2|]. split; [exact Hto|exact Hlen].
Defined.

(** X10: when every request of a settled submission fails, the result set
    is empty and the notice counts every non-blank field. *)
Theorem all_failed_counts_all (P : Platform) (w : World) (st : State) :
  validTokens (tokens st) <> [] ->
  all_settle w (length (validTokens (tokens st))) ->
  (forall o, o ∈ outcomes P w (tokens st) -> failed P o = true) ->
  let st' := handleSubmit P w st in
  results st' = []
  /\ toasts st' = [failed_message (length (validTokens (tokens st)))]
  /\ loading st' = false.
Proof.
  intros Hne Hall Hbad st'. subst st'.
  rewrite (handleSubmit_settled P w st Hne Hall). cbn [toasts results loading].
  pose proof (successful_failed_length P (outcomes P w (tokens st))) as L.
  rewrite (filter_failed_all P _ Hbad) in *.
  rewrite length_outcomes in *.
  assert (length (omap (successful P) (outcomes P w (tokens st))) = 0%nat) as Z by lia.
  apply nil_length_inv in Z. rewrite Z. split; [reflexivity|].
  split; [|reflexivity].
  destruct (validTokens (tokens st)); [congruence|reflexivity].
Qed.

Lemma all_failed_counts_all_witness :
  validTokens (tokens Demo.padded) <> []
  /\ all_settle Demo.in_order (length (validTokens (tokens Demo.padded)))
  /\ results (handleSubmit Demo.platform Demo.in_order Demo.padded) = []
  /\ toasts (handleSubmit Demo.platform Demo.in_order Demo.padded)
     = [js "Failed to fetch 1 token"].
Proof.
  assert (validTokens (tokens Demo.padded) <> []) as H1
    by (vm_compute; discriminate).
  assert (all_settle Demo.in_order (length (validTokens (tokens Demo.padded))))
    as H2.
  { intros i Hi. vm_compute in Hi.
    destruct i as [|i]; [repeat constructor|lia]. }
  assert (forall o, o ∈ outcomes Demo.platform Demo.in_order (tokens Demo.padded)
                    -> failed Demo.platform o = true) as H3.
  { intros o Ho. vm_compute in Ho.
    repeat (apply elem_of_cons in Ho as [->|Ho]; [vm_compute; reflexivity|]).
    inversion Ho. }
  destruct (all_failed_counts_all Demo.platform Demo.in_order Demo.padded
              H1 H2 H3) as (Hres & Hto & _).
  split; [exact H1|]. split; [exact H2|]. split; [exact Hres|].
  rewrite Hto. vm_compute. reflexivity.
Defined.

(** ** The failure notice *)

Section Notice.

Lemma js_inj s1 s2 : js s1 = js s2 -> s1 = s2.
Proof.
  unfold js. intros H.
  assert (list_ascii_of_string s1 = list_ascii_of_string s2) as E.
  { revert H. generalize (list_ascii_of_string s1) (list_ascii_of_string s2).
    induction l as [|a l IH]; intros [|b l']; simpl; intros H;
      try discriminate; [reflexivity|].
    injection H as Hab Hl. f_equal; [|by apply IH].
    rewrite <- (ascii_N_embedding a), <- (ascii_N_embedding b). by rewrite Hab. }
  rewrite <- (string_of_list_ascii_of_string s1),
          <- (string_of_list_ascii_of_string s2).
  by rewrite E.
Qed.

Lemma to_uint_nonnil n : Nat.to_uint n <> Decimal.Nil.
Proof.
  rewrite <- (DecimalNat.Unsigned.of_to n) at 1.
  rewrite DecimalNat.Unsigned.to_of. apply DecimalFacts.unorm_nonnil.
Qed.

Lemma of_nat_inj n m : of_nat n = of_nat m -> n = m.
Proof.
  unfold of_nat. intros H. apply js_inj in H.
  apply DecimalNat.Unsigned.to_uint_inj.
  pose proof (NilZero.usu _ (to_uint_nonnil n)) as Hn.
  pose proof (NilZero.usu _ (to_uint_nonnil m)) as Hm.
  rewrite H in Hn. congruence.
Qed.

Lemma digits_no_space d : 32%N ∉ js (NilEmpty.string_of_uint d).
Proof.
  induction d; simpl; try (apply not_elem_of_cons; split; [discriminate|]);
    try exact IHd; apply not_elem_of_nil.
Qed.

Lemma of_nat_no_space n : 32%N ∉ of_nat n.
Proof.
  unfold of_nat, NilZero.string_of_uint.
  destruct (Nat.to_uint n) eqn:E; try (rewrite <- E; apply digits_no_space).
  simpl. apply not_elem_of_cons. split; [discriminate|apply not_elem_of_nil].
Qed.

Lemma app_sep_inj {A} (x : A) (a : list A) : forall b r r',
  x ∉ a -> x ∉ b -> a ++ x :: r = b ++ x :: r' -> a = b.
Proof.
  induction a as [|y a IH]; intros [|z b] r r' Ha Hb H; simpl in H.
  - reflexivity.
  - injection H as -> _. exfalso. apply Hb. left.
  - injection H as -> _. exfalso. apply Ha. left.
  - injection H as -> H. f_equal.
    apply (IH b r r'); [|  |exact H].
    + intros ?. apply Ha. by right.
    + intros ?. apply Hb. by right.
Qed.

End Notice.

(** X11: the notice tells the count: two different counts never give the
    same text, and the text ends in the plural [s] exactly when more than
    one token failed. *)
Theorem failed_message_tells_count (n m : nat) :
  (failed_message n = failed_message m -> n = m)
  /\ (last (failed_message n) = Some 0x73%N <-> (1 < n)%nat).
Proof.
  split.
  - unfold failed_message. intros H. apply app_inv_head in H.
    apply of_nat_inj.
    change (js " token") with (32%N :: js "token") in H.
    rewrite <- !app_comm_cons in H.
    apply (app_sep_inj _ _ _ _ _ (of_nat_no_space n) (of_nat_no_space m) H).
  - unfold failed_message. rewrite !app_assoc.
    destruct (Nat.ltb_spec 1 n) as [Hlt|Hge].
    + change (js "s") with [0x73%N]. rewrite last_snoc. split; [done|reflexivity].
    + rewrite app_nil_r.
      change (js " token") with (js " toke" ++ [0x6E%N]).
      rewrite app_assoc, last_snoc. split; [discriminate|lia].
Qed.

Lemma failed_message_tells_count_witness :
  failed_message 1 = js "Failed to fetch 1 token"
  /\ failed_message 12 = js "Failed to fetch 12 tokens"
  /\ last (failed_message 12) = Some 0x73%N.
Proof.
  split; [reflexivity|]. split; [reflexivity|].
  apply (failed_message_tells_count 12 0). simpl. lia.
Defined.

(** ** The three blocks under the form *)

(** X12: whatever the state, exactly one of the three blocks is rendered:
    the skeleton while loading, else the empty state when there is no
    result, else the results; the submit button is disabled exactly while
    the skeleton is up. *)
Theorem one_block_rendered (st : State) (dark : bool) :
  let s := render st dark in
  submit_disabled s = loading st
  /\ ((loading st = true
       /\ skeleton s = Some (SkeletonLoader (length (tokens st)) dark)
       /\ empty_state s = false /\ results_block s = None)
      \/ (loading st = false /\ results st = []
          /\ skeleton s = None
          /\ empty_state s = true /\ results_block s = None)
      \/ (loading st = false /\ results st <> []
          /\ skeleton s = None
          /\ empty_state s = false
          /\ exists block, results_block s = Some block)).
Proof.
  intros s. subst s. unfold render. cbn.
  split; [reflexivity|].
  destruct (loading st); [left; by repeat split|right].
  destruct (results st) as [|r l]; [left; by repeat split|right].
  repeat split; try discriminate. eexists. reflexivity.
Qed.

(** X13: while a submission is pending the skeleton shows one placeholder
    per field, blank fields included: never fewer than the requests in
    flight.  Placeholder [i] is delayed by [100 * i] ms; the submit button
    is disabled and neither the empty state nor any result is shown. *)
Theorem skeleton_counts_fields (P : Platform) (w : World) (st : State)
    (dark : bool) :
  some_pending w (length (validTokens (tokens st))) ->
  let s := render (handleSubmit P w st) dark in
  exists placeholders,
    skeleton s = Some placeholders
    /\ length placeholders = length (tokens st)
    /\ (length (validTokens (tokens st)) <= length placeholders)%nat
    /\ (forall i, (i < length (tokens st))%nat ->
          placeholder_delay_ms <$> placeholders !! i = Some (i * 100)%nat)
    /\ submit_disabled s = true
    /\ empty_state s = false
    /\ results_block s = None.
Proof.
  intros H s. subst s. rewrite (handleSubmit_pending P w st H).
  unfold render. cbn.
  exists (SkeletonLoader (length (tokens st)) dark).
  split; [reflexivity|]. unfold SkeletonLoader.
  split; [by rewrite length_map, length_seq|].
  split; [rewrite length_map, length_seq; apply List.filter_length_le|].
  split; [|by repeat split].
  intros i Hi. change (map ?f ?l) with (f <$> l).
  by rewrite list_lookup_fmap, lookup_seq_lt.
Qed.

Lemma skeleton_counts_fields_witness :
  some_pending Demo2.second_hangs (length (validTokens (tokens Demo.four_fields)))
  /\ length (validTokens (tokens Demo.four_fields)) = 3%nat
  /\ (length <$> skeleton (render (handleSubmit Demo.platform Demo2.second_hangs
                                     Demo.four_fields) true)) = Some 4%nat.
Proof.
  assert (some_pending Demo2.second_hangs
            (length (validTokens (tokens Demo.four_fields)))) as H.
  { exists 1%nat. split; [vm_compute; lia|].
    intros Hin. vm_compute in Hin.
    repeat (apply elem_of_cons in Hin as [Hin|Hin]; [discriminate|]).
    inversion Hin. }
  destruct (skeleton_counts_fields Demo.platform Demo2.second_hangs
              Demo.four_fields true H) as (ph & Hsk & Hlen & _).
  split; [exact H|]. split; [reflexivity|].
  rewrite Hsk. simpl. by rewrite Hlen.
Defined.

(** ** The schema, both ways *)

Section SchemaMore.

Variable P : Platform.

Lemma z_string_Some v s : z_string v = Some s <-> v = Some (JStr s).
Proof.
  split.
  - destruct v as [[]|]; simpl; intros E; try discriminate. by injection E as ->.
  - intros ->. reflexivity.
Qed.

Lemma z_number_optional_Some v n :
  z_number_optional v = Some n <-> optional_number v n.
Proof.
  destruct v as [[]|]; simpl; split; intros H;
    try discriminate; try contradiction; try (by injection H as <-);
    by rewrite H.
Qed.

Lemma z_enum_Some v se :
  z_enum v = Some se <->
  exists s, v = Some (JStr s) /\ (s, se) ∈ sentiment_values.
Proof.
  split.
  - unfold z_enum. destruct v as [[| | |s| |]|]; try discriminate.
    destruct (List.find _ sentiment_values) as [[s' se']|] eqn:Ef; [|discriminate].
    intros H. injection H as <-. apply find_some in Ef as [Hin Heq].
    apply bool_decide_eq_true in Heq. simpl in Heq. subst s'.
    exists s. split; [reflexivity|]. by apply list_elem_of_In.
  - intros (s & -> & Hin). unfold sentiment_values in Hin.
    repeat (apply elem_of_cons in Hin as [Hin|Hin];
            [injection Hin as -> ->; reflexivity|]).
    inversion Hin.
Qed.

(** [TokenSchema.parse] succeeds exactly on the conforming objects. *)
Lemma TokenSchema_parse_iff data tok :
  TokenSchema_parse P data = Some tok <-> conforms P data tok.
Proof.
  unfold conforms. split.
  - unfold TokenSchema_parse. destruct data as [| | | | |ms]; try discriminate.
    intros H.
    destruct (z_string (get "id" (JObj ms))) as [i|] eqn:E1; [|discriminate].
    destruct (z_string (get "name" (JObj ms))) as [n|] eqn:E2; [|discriminate].
    destruct (z_string (get "symbol" (JObj ms))) as [sy|] eqn:E3; [|discriminate].
    destruct (z_string_url P (get "image" (JObj ms))) as [im|] eqn:E4; [|discriminate].
    destruct (z_string (get "summary" (JObj ms))) as [su|] eqn:E5; [|discriminate].
    destruct (z_number_optional (get "price" (JObj ms))) eqn:E6; [|discriminate].
    destruct (z_number_optional (get "market_cap" (JObj ms))) eqn:E7; [|discriminate].
    destruct (z_number_optional (get "price_change_24h" (JObj ms))) eqn:E8;
      [|discriminate].
    destruct (z_number_optional (get "volume_24h" (JObj ms))) eqn:E9; [|discriminate].
    destruct (z_number_optional (get "circulating_supply" (JObj ms))) eqn:E10;
      [|discriminate].
    destruct (z_enum (get "sentiment" (JObj ms))) as [se|] eqn:E11; [|discriminate].
    injection H as <-.
    cbn [id name symbol image summary price market_cap price_change_24h
         volume_24h circulating_supply sentiment].
    unfold z_string_url in E4.
    destruct (z_string (get "image" (JObj ms))) as [s|] eqn:E4'; [|discriminate].
    destruct (isURL P s) eqn:Eu; [|discriminate]. injection E4 as ->.
    apply z_string_Some in E1, E2, E3, E4', E5.
    apply z_number_optional_Some in E6, E7, E8, E9, E10.
    apply z_enum_Some in E11 as (s & E11 & Hin).
    split; [by exists ms|]. do 4 (split; [assumption|]).
    split; [exact Eu|]. do 6 (split; [assumption|]). by exists s.
  - intros ((ms & ->) & H1 & H2 & H3 & H4 & Hu & H5 & H6 & H7 & H8 & H9 & H10
            & s & H11 & Hin).
    unfold TokenSchema_parse, z_string_url.
    apply z_string_Some in H1, H2, H3, H4, H5.
    apply z_number_optional_Some in H6, H7, H8, H9, H10.
    assert (z_enum (get "sentiment" (JObj ms)) = Some (sentiment tok)) as H12.
    { apply z_enum_Some. by exists s. }
    rewrite H1, H2, H3, H4, Hu, H5, H6, H7, H8, H9, H10, H12. simpl.
    by destruct tok.
Qed.

Lemma assoc_last_skip key k v ms1 ms2 :
  key <> k ->
  assoc_last key (ms1 ++ (k, v) :: ms2) = assoc_last key (ms1 ++ ms2).
Proof.
  intros Hne. induction ms1 as [|[k' v'] ms1 IH]; simpl.
  - destruct (assoc_last key ms2); [reflexivity|].
    unfold JS.eqb. by rewrite bool_decide_eq_false_2.
  - by rewrite IH.
Qed.

Lemma sentiment_text_table s se :
  (s, se) ∈ sentiment_values -> sentiment_text se = s.
Proof.
  intros Hin. unfold sentiment_values in Hin.
  repeat (apply elem_of_cons in Hin as [Hin|Hin];
          [injection Hin as -> ->; reflexivity|]).
  inversion Hin.
Qed.

End SchemaMore.

(** X14: [TokenSchema.parse] accepts a value exactly when it is an object
    with the five string fields, an [image] that passes the URL check, a
    [sentiment] of the enumeration and each numeric field absent or a
    number; the record it returns repeats those fields. *)
Theorem TokenSchema_accepts_exactly (P : Platform) (data : json) (tok : TokenInfo) :
  TokenSchema_parse P data = Some tok <-> conforms P data tok.
Proof. apply TokenSchema_parse_iff. Qed.

Lemma TokenSchema_accepts_exactly_witness :
  exists data tok,
    JSON_parse Demo.bitcoin = Value data
    /\ TokenSchema_parse Demo.platform data = Some tok
    /\ conforms Demo.platform data tok
    /\ price tok = Some (Finite false (128501 * 2 ^ 36) (-37))
    /\ market_cap tok = None.
Proof.
  destruct (JSON_parse Demo.bitcoin) as [data|] eqn:E;
    [|vm_compute in E; discriminate].
  destruct (TokenSchema_parse Demo.platform data) as [tok|] eqn:Et.
  2:{ vm_compute in E. injection E as <-. vm_compute in Et. discriminate. }
  exists data, tok. split; [reflexivity|]. split; [exact Et|].
  split; [exact (proj1 (TokenSchema_accepts_exactly _ _ _) Et)|].
  vm_compute in E. injection E as <-. vm_compute in Et. injection Et as <-.
  split; reflexivity.
Defined.

(** X15: a member under a key the schema does not read changes nothing,
    wherever it stands in the object: the same record comes out, or the
    same rejection. *)
Theorem unknown_key_ignored (P : Platform) (k : jsstring) (v : json)
    (ms1 ms2 : list (jsstring * json)) :
  k ∉ schema_keys ->
  TokenSchema_parse P (JObj (ms1 ++ (k, v) :: ms2))
  = TokenSchema_parse P (JObj (ms1 ++ ms2)).
Proof.
  intros Hk. unfold TokenSchema_parse. cbn [get].
  rewrite !(assoc_last_skip _ k v ms1 ms2)
    by (intros <-; apply Hk; unfold schema_keys; repeat constructor).
  reflexivity.
Qed.

Lemma unknown_key_ignored_witness :
  (js "rank" ∉ schema_keys)
  /\ (id <$> TokenSchema_parse Demo.platform
               (JObj ((js "rank", JNum (Finite false (2 ^ 52) (-52)))
                      :: Demo2.bitcoin_members)))
     = Some (js "bitcoin").
Proof.
  assert (js "rank" ∉ schema_keys) as Hk.
  { intros H. unfold schema_keys in H.
    repeat (apply elem_of_cons in H as [H|H]; [discriminate|]). inversion H. }
  split; [exact Hk|].
  pose proof (unknown_key_ignored Demo.platform (js "rank")
                (JNum (Finite false (2 ^ 52) (-52)))
                [] Demo2.bitcoin_members Hk) as E.
  cbn [app] in E. rewrite E. vm_compute. reflexivity.
Defined.

(** X16: an optional numeric field that is present but not a number
    ([null], a string, ...) makes the schema reject the whole response:
    only a missing field counts as absent. *)
Theorem non_number_rejects (P : Platform) (data : json) (field : string) (v : json) :
  field ∈ optional_fields ->
  get field data = Some v ->
  (forall n, v <> JNum n) ->
  TokenSchema_parse P data = None.
Proof.
  intros Hf Hv Hnn.
  destruct (TokenSchema_parse P data) as [tok|] eqn:E; [|reflexivity].
  exfalso. apply TokenSchema_parse_iff in E
    as (_ & _ & _ & _ & _ & _ & _ & H6 & H7 & H8 & H9 & H10 & _).
  unfold optional_fields in Hf.
  repeat (apply elem_of_cons in Hf as [->|Hf];
          [match goal with
           | H : optional_number (get ?f data) _ |- _ =>
               rewrite Hv in H; destruct v; simpl in H;
                 try contradiction; by eapply Hnn
           end|]).
  inversion Hf.
Qed.

Lemma non_number_rejects_witness :
  exists data,
    JSON_parse Demo2.bitcoin_null_price = Value data
    /\ get "price" data = Some JNull
    /\ TokenSchema_parse Demo.platform data = None.
Proof.
  destruct (JSON_parse Demo2.bitcoin_null_price) as [data|] eqn:E;
    [|vm_compute in E; discriminate].
  exists data. split; [reflexivity|].
  assert (get "price" data = Some JNull) as Hp.
  { vm_compute in E. injection E as <-. reflexivity. }
  split; [exact Hp|].
  apply (non_number_rejects Demo.platform data "price" JNull);
    [left|exact Hp|discriminate].
Defined.

(** ** The look of a card *)

(** X17: a card is green (up icon, bar at 75%) exactly when the response's
    sentiment was [bullish]; every other sentiment of the enumeration,
    [strong bullish] and [neutral] among them, gets the red look (down
    icon, bar at 25%). *)
Theorem only_bullish_is_green (P : Platform) (data : json) (tok : TokenInfo)
    (index : nat) :
  TokenSchema_parse P data = Some tok ->
  let look := card_look (TokenCard index tok) in
  get "sentiment" data = Some (JStr (sentiment_text (sentiment tok)))
  /\ (get "sentiment" data = Some (JStr (js "bullish")) -> look = green_look)
  /\ (get "sentiment" data <> Some (JStr (js "bullish")) -> look = red_look)
  /\ (look = green_look \/ look = red_look).
Proof.
  intros Hp look. subst look.
  apply TokenSchema_parse_sound in Hp as (_ & _ & _ & s & Hs & Hin).
  apply sentiment_text_table in Hin as Ht. rewrite Hs, Ht.
  split; [reflexivity|]. cbn [card_look TokenCard]. rewrite Ht.
  unfold sentiment_values in Hin.
  repeat (apply elem_of_cons in Hin as [Hin|Hin];
          [injection Hin as -> _;
           split; [intros H; try reflexivity; discriminate|];
           split; [intros H; try reflexivity; by destruct H|];
           ((by left) || (by right))|]).
  inversion Hin.
Qed.

Lemma only_bullish_is_green_witness :
  exists data tok,
    JSON_parse Demo2.strong_bullish = Value data
    /\ TokenSchema_parse Demo.platform data = Some tok
    /\ sentiment tok = StrongBullish
    /\ card_look (TokenCard 0 tok) = red_look.
Proof.
  destruct (JSON_parse Demo2.strong_bullish) as [data|] eqn:E;
    [|vm_compute in E; discriminate].
  destruct (TokenSchema_parse Demo.platform data) as [tok|] eqn:Et.
  2:{ vm_compute in E. injection E as <-. vm_compute in Et. discriminate. }
  exists data, tok. split; [reflexivity|]. split; [exact Et|].
  destruct (only_bullish_is_green Demo.platform data tok 0 Et)
    as (Hs & _ & Hred & _).
  vm_compute in E. injection E as <-. vm_compute in Et. injection Et as <-.
  split; [reflexivity|]. apply Hred. discriminate.
Defined.

(** ** More on the proxy route *)

Section RouteMore.

Lemma searchParams_get_first name v ps1 ps2 :
  name ∉ map fst ps1 ->
  searchParams_get name (ps1 ++ (name, v) :: ps2) = Some v.
Proof.
  induction ps1 as [|[k w] ps1 IH]; intros H; simpl.
  - unfold JS.eqb. by rewrite bool_decide_eq_true_2.
  - simpl in H. apply not_elem_of_cons in H as [Hne Hrest].
    unfold JS.eqb. rewrite bool_decide_eq_false_2 by congruence. by apply IH.
Qed.

End RouteMore.

(** X18: the handler catches nothing: with a non-empty token, when the
    upstream cannot be reached or answers with a body that is not JSON,
    the error leaves the handler after the one fetch, and no reply of the
    handler's own is produced. *)
Theorem upstream_failure_escapes (upstream : jsstring -> FetchOutcome)
    (req : NextRequest) (tok : jsstring) :
  searchParams_get (js "token") (searchParams req) = Some tok ->
  tok <> empty ->
  upstream (UPSTREAM ++ tok) = NetworkError
  \/ (exists res, upstream (UPSTREAM ++ tok) = Responded res
                  /\ json_of res = Throws) ->
  exists e, GET upstream req = (Uncaught e, [UPSTREAM ++ tok]).
Proof.
  intros Hget Hne Hfail. unfold GET. rewrite Hget.
  destruct tok as [|c tok]; [by destruct Hne|]. cbn [truthy negb].
  destruct Hfail as [Hnet|(res & Hres & Hj)].
  - rewrite Hnet. by eexists.
  - rewrite Hres, Hj. by eexists.
Qed.

Lemma upstream_failure_escapes_witness :
  JSON_parse (js "<html>Bad Gateway</html>") = Throws
  /\ GET Demo2.upstream_html {| searchParams := [(js "token", js "btc")] |}
     = (Uncaught UpstreamNotJson, [UPSTREAM ++ js "btc"]).
Proof.
  assert (JSON_parse (js "<html>Bad Gateway</html>") = Throws) as Hp
    by (vm_compute; reflexivity).
  split; [exact Hp|].
  destruct (upstream_failure_escapes Demo2.upstream_html
              {| searchParams := [(js "token", js "btc")] |} (js "btc")
              eq_refl ltac:(discriminate)
              (or_intror (ex_intro _ {| status := 502;
                                        body := js "<html>Bad Gateway</html>" |}
                            (conj eq_refl Hp)))) as ([|] & He).
  - vm_compute in He. discriminate.
  - exact He.
Defined.

(** X19: the handler fetches at most once, and only the fixed upstream
    URL followed by a non-empty token; it replies 400 exactly when it
    fetched nothing; a reply of its own has status 200 or 400 and no
    other, so an upstream error status never reaches the caller. *)
Theorem proxy_replies_200_or_400 (upstream : jsstring -> FetchOutcome)
    (req : NextRequest) :
  let reply := fst (GET upstream req) in
  let fetched := snd (GET upstream req) in
  (length fetched <= 1)%nat
  /\ (forall url, url ∈ fetched ->
        exists tok, tok <> empty /\ url = UPSTREAM ++ tok
                    /\ searchParams_get (js "token") (searchParams req) = Some tok)
  /\ (fetched = [] <-> reply = NextResponse_json 400 token_required)
  /\ (forall status data,
        reply = NextResponse_json status data -> status = 200%N \/ status = 400%N).
Proof.
  unfold GET.
  destruct (searchParams_get (js "token") (searchParams req)) as [[|c tok]|] eqn:E;
    cbn [truthy negb fst snd].
  1,3: split; [simpl; lia|]; (split; [intros url H; inversion H|]);
       (split; [by split|]); intros status data H; injection H as <- _; by right.
  destruct (upstream (UPSTREAM ++ c :: tok)) as [|res]; cbn [fst snd].
  2: destruct (json_of res) as [data|]; cbn [fst snd].
  all: split; [simpl; lia|];
       (split; [intros url H; apply list_elem_of_singleton in H as ->;
                exists (c :: tok); by repeat split|]);
       (split; [split; discriminate|]);
       intros status data' H; try discriminate;
       injection H as <- _; by left.
Qed.

(** X20: only the first [token] parameter counts: parameters before it
    under other names, and anything after it (a second [token] included),
    change neither the reply nor what is fetched. *)
Theorem first_token_wins (upstream : jsstring -> FetchOutcome)
    (ps1 ps2 : list (jsstring * jsstring)) (v : jsstring) :
  js "token" ∉ map fst ps1 ->
  GET upstream {| searchParams := ps1 ++ (js "token", v) :: ps2 |}
  = GET upstream {| searchParams := [(js "token", v)] |}.
Proof.
  intros H. unfold GET. cbn [searchParams].
  rewrite (searchParams_get_first _ v ps1 ps2 H).
  pose proof (searchParams_get_first (js "token") v [] []
                ltac:(apply not_elem_of_nil)) as E.
  cbn [app] in E. by rewrite E.
Qed.

Lemma first_token_wins_witness :
  (js "token" ∉ map fst [(js "v", js "2")])
  /\ snd (GET (Demo.always_bitcoin 0)
            {| searchParams := [(js "v", js "2"); (js "token", js "btc");
                                (js "token", js "eth")] |})
     = [UPSTREAM ++ js "btc"].
Proof.
  assert (js "token" ∉ map fst [(js "v", js "2")]) as H.
  { simpl. intros H. apply list_elem_of_singleton in H. discriminate. }
  split; [exact H|].
  pose proof (first_token_wins (Demo.always_bitcoin 0) [(js "v", js "2")]
                [(js "token", js "eth")] (js "btc") H) as E.
  cbn [app] in E. rewrite E. vm_compute. reflexivity.
Defined.

(** ** More on the dark-mode flag *)

Section DarkMore.

Lemma persistDark_in_sync dark b : in_sync dark (persistDark dark b).
Proof.
  unfold in_sync, persistDark, setItem, classList_toggle_dark.
  cbn [darkClass localStorage].
  split; [reflexivity|apply lookup_insert_eq].
Qed.

Lemma persistDark_other dark b k :
  k <> KEY -> localStorage (persistDark dark b) !! k = localStorage b !! k.
Proof.
  intros H. unfold persistDark, setItem. simpl. by apply lookup_insert_ne.
Qed.

Lemma mount_in_sync b dark b' : mount b = Mounted dark b' -> in_sync dark b'.
Proof.
  unfold mount, getItem.
  destruct (savedDark_value (localStorage b !! KEY)) as [v|]; [|discriminate].
  destruct v as [| [|] | | | |]; intros H; injection H as <- <-;
    apply persistDark_in_sync.
Qed.

(** Mounting is decided by the stored text alone. *)
Lemma mount_value b text v :
  localStorage b !! KEY = Some text ->
  savedDark_value (Some text) = Value v ->
  exists b', mount b = Mounted v b'.
Proof.
  intros H Hv. unfold mount, getItem. rewrite H, Hv.
  destruct v as [| [|] | | | |]; by eexists.
Qed.

Lemma savedDark_value_bool (d : bool) :
  savedDark_value (Some (JSON_stringify d)) = Value (JBool d).
Proof. destruct d; by vm_compute. Qed.

End DarkMore.

(** X21: the page writes one key of the store and no other: whatever
    mounting does, and whatever flag is persisted, every other key keeps
    its value. *)
Theorem only_dark_key_written (b : Browser) (k : jsstring) (dark : bool) :
  k <> KEY ->
  localStorage (browser_of (mount b)) !! k = localStorage b !! k
  /\ localStorage (persistDark dark b) !! k = localStorage b !! k
  /\ localStorage (snd (toggle dark b)) !! k = localStorage b !! k.
Proof.
  intros Hk. split; [|split; by apply persistDark_other].
  unfold mount, getItem.
  destruct (savedDark_value (localStorage b !! KEY)) as [[| [|] | | | |]|];
    cbn [browser_of]; rewrite ?persistDark_other by exact Hk; reflexivity.
Qed.

Lemma only_dark_key_written_witness :
  js "theme" <> KEY
  /\ localStorage (browser_of (mount
       {| localStorage := {[ js "theme" := js "blue" ]}; calls := [];
          darkClass := false |})) !! js "theme" = Some (js "blue").
Proof.
  assert (js "theme" <> KEY) as H by discriminate.
  split; [exact H|].
  destruct (only_dark_key_written
              {| localStorage := {[ js "theme" := js "blue" ]}; calls := [];
                 darkClass := false |} (js "theme") true H) as (Hm & _).
  rewrite Hm. apply lookup_singleton_eq.
Defined.

(** X22: after a mount that comes up, with whatever flag the stored text
    parsed to, the class on the root element is on exactly when the flag
    is truthy and the stored text is the flag's JSON text (a stored [1]
    comes up with the flag 1, the class on and [1] in the store).  A
    toggle sets the negation of the flag, a boolean, and keeps class and
    store in agreement with it.  Two toggles bring back the class; they
    bring back the flag and the stored text when the flag was a
    boolean. *)
Theorem flag_store_class_in_sync (b : Browser) (dark : json) (b' : Browser) :
  mount b = Mounted dark b' ->
  let once := toggle dark b' in
  let twice := toggle (fst once) (snd once) in
  in_sync dark b'
  /\ fst once = negb (truthy_value dark)
  /\ in_sync (fst once) (snd once)
  /\ fst twice = truthy_value dark
  /\ in_sync (fst twice) (snd twice)
  /\ darkClass (snd twice) = darkClass b'
  /\ forall d : bool,
       dark = JBool d ->
       JBool (fst twice) = dark
       /\ localStorage (snd twice) !! KEY = localStorage b' !! KEY.
Proof.
  intros H once twice. pose proof (mount_in_sync b dark b' H) as [Hc Hs].
  assert (fst twice = truthy_value dark) as Ht.
  { subst twice once. unfold toggle. cbn [fst snd truthy_value].
    apply negb_involutive. }
  assert (in_sync (fst twice) (snd twice)) as [Hc2 Hs2].
  { subst twice. unfold toggle. cbn [fst snd]. apply persistDark_in_sync. }
  split; [by split|]. split; [reflexivity|].
  split; [subst once; unfold toggle; cbn [fst snd]; apply persistDark_in_sync|].
  split; [exact Ht|]. split; [by split|].
  split.
  - rewrite Hc2, Hc, Ht. reflexivity.
  - intros d ->. rewrite Hs2, Hs, Ht. by split.
Qed.

Lemma flag_store_class_in_sync_witness :
  exists b',
    mount (Demo.browser_with (Some (js "1")))
    = Mounted (JNum (Finite false (2 ^ 52) (-52))) b'
    /\ darkClass b' = true
    /\ localStorage b' !! KEY = Some (js "1")
    /\ fst (toggle false (snd (toggle (JNum (Finite false (2 ^ 52) (-52))) b')))
       = true
    /\ localStorage
         (snd (toggle false
                 (snd (toggle (JNum (Finite false (2 ^ 52) (-52))) b')))) !! KEY
       = Some (js "true").
Proof.
  destruct (mount (Demo.browser_with (Some (js "1")))) as [v b'|] eqn:E;
    [|vm_compute in E; discriminate].
  assert (v = JNum (Finite false (2 ^ 52) (-52))) as ->.
  { unfold mount in E. vm_compute in E. by injection E as <- _. }
  destruct (flag_store_class_in_sync _ _ _ E)
    as ((Hc & Hs) & _ & _ & _ & (_ & Hs2) & _).
  exists b'. split; [reflexivity|]. split; [exact Hc|].
  split; [rewrite Hs; by vm_compute|]. split; [reflexivity|exact Hs2].
Defined.

(** X23: a reload comes up with what [JSON.parse] makes of the stored
    text, which is the [JSON.stringify] text of the flag the page had.
    That is the same flag when the flag was a boolean, and it is the
    toggled flag when the user toggled before reloading.  A flag that is
    not a boolean need not come back: a stored [1e400] comes up as the
    flag infinity, which is stored as [null] and reloads as [null]. *)
Theorem reload_keeps_flag (b : Browser) (dark : json) (b' : Browser) :
  mount b = Mounted dark b' ->
  localStorage (reload b') !! KEY = Some (JSON_stringify dark)
  /\ (forall v,
        savedDark_value (Some (JSON_stringify dark)) = Value v ->
        exists b'', mount (reload b') = Mounted v b'')
  /\ (forall d : bool,
        dark = JBool d -> exists b'', mount (reload b') = Mounted d b'')
  /\ (exists b'', mount (reload (snd (toggle dark b')))
                  = Mounted (fst (toggle dark b')) b'').
Proof.
  intros H. apply mount_in_sync in H as [_ Hs].
  split; [exact Hs|]. split; [|split].
  - intros v Hv. by apply (mount_value _ (JSON_stringify dark)).
  - intros d ->. apply (mount_value _ (JSON_stringify d)); [exact Hs|].
    apply savedDark_value_bool.
  - unfold toggle. cbn [fst snd].
    apply (mount_value _ (JSON_stringify (negb (truthy_value dark)))).
    + apply persistDark_in_sync.
    + apply savedDark_value_bool.
Qed.

Lemma reload_keeps_flag_witness :
  exists b' b'',
    mount (Demo.browser_with (Some (js "1e400")))
    = Mounted (JNum (Infinite false)) b'
    /\ darkClass b' = true
    /\ localStorage b' !! KEY = Some (js "null")
    /\ mount (reload b') = Mounted JNull b''
    /\ darkClass b'' = false.
Proof.
  destruct (mount (Demo.browser_with (Some (js "1e400")))) as [v b'|] eqn:E;
    [|vm_compute in E; discriminate].
  assert (v = JNum (Infinite false)) as ->.
  { unfold mount in E. vm_compute in E. by injection E as <- _. }
  destruct (reload_keeps_flag _ _ _ E) as (Hs & Hv & _).
  destruct (Hv JNull ltac:(by vm_compute)) as (b'' & Hb'').
  exists b', b''. split; [reflexivity|].
  split; [by apply (mount_in_sync _ _ _ E)|]. split; [exact Hs|].
  split; [exact Hb''|]. by apply (mount_in_sync _ _ _ Hb'').
Defined.

(** ** The screen after a submission *)

(** X24: once a submission has settled the skeleton is gone and the
    button is enabled again; the results block is shown exactly when some
    request was accepted, with one card per accepted response in request
    order, keyed by the response's id; otherwise the empty state is shown
    (together with the notice). *)
Theorem settled_screen (P : Platform) (w : World) (st : State) (dark : bool) :
  validTokens (tokens st) <> [] ->
  all_settle w (length (validTokens (tokens st))) ->
  let s := render (handleSubmit P w st) dark in
  let accepted := omap (successful P) (outcomes P w (tokens st)) in
  skeleton s = None
  /\ submit_disabled s = false
  /\ (accepted = [] ->
        empty_state s = true /\ results_block s = None)
  /\ (accepted <> [] ->
        empty_state s = false
        /\ exists block,
             results_block s = Some block
             /\ cards block = imap TokenCard accepted
             /\ map card_key (cards block) = map id accepted).
Proof.
  intros Hne Hall s accepted. subst s.
  rewrite (handleSubmit_settled P w st Hne Hall). unfold render. cbn.
  fold accepted. split; [reflexivity|]. split; [reflexivity|].
  destruct accepted as [|r l] eqn:E.
  - split; [by split|]. by intros [].
  - split; [discriminate|]. intros _. split; [reflexivity|].
    eexists. split; [reflexivity|]. cbn [cards]. split; [reflexivity|].
    change (map card_key ?x) with (card_key <$> x).
    rewrite fmap_imap. cbn.
    assert (forall (l0 : list TokenInfo) (k : nat),
              imap (fun i => card_key ∘ TokenCard (k + i)) l0 = map id l0) as K.
    { induction l0 as [|x l0 IH]; intros k; [reflexivity|]. cbn. f_equal.
      rewrite <- (IH (S k)). apply imap_ext. intros i y _. cbn.
      by replace (k + S i)%nat with (S (k + i))%nat by lia. }
    exact (K (r :: l) 0%nat).
Qed.

Lemma settled_screen_witness :
  validTokens (tokens Demo.padded) <> []
  /\ all_settle Demo.in_order (length (validTokens (tokens Demo.padded)))
  /\ empty_state (render (handleSubmit Demo.platform Demo.in_order Demo.padded)
                    false) = true
  /\ results Demo.padded <> [].
Proof.
  assert (validTokens (tokens Demo.padded) <> []) as H1
    by (vm_compute; discriminate).
  assert (all_settle Demo.in_order (length (validTokens (tokens Demo.padded))))
    as H2.
  { intros i Hi. vm_compute in Hi.
    destruct i as [|i]; [repeat constructor|lia]. }
  destruct (settled_screen Demo.platform Demo.in_order Demo.padded false H1 H2)
    as (_ & _ & Hempty & _).
  split; [exact H1|]. split; [exact H2|]. split.
  - apply Hempty. vm_compute. reflexivity.
  - vm_compute. discriminate.
Defined.

(** ** Which fields are submitted *)

(** X25: a field passes the test [t.trim()] exactly when it holds a code
    unit that is not white space.  The filter of a submission keeps
    exactly those fields: every occurrence of such a field at its place
    between what is kept of the fields before it and of the fields after
    it, as it was typed, and no occurrence of any other field; so a field
    that is repeated is kept as often as it occurs. *)
Theorem filter_keeps_non_blank (tokens : list jsstring) (t : jsstring) :
  (truthy (trim t) = true <-> exists c, c ∈ t /\ isWhiteSpace c = false)
  /\ (t ∈ validTokens tokens <-> t ∈ tokens /\ ~ blank t)
  /\ validTokens tokens `sublist_of` tokens
  /\ validTokens tokens = non_blank_fields tokens
  /\ (forall before after,
        tokens = before ++ t :: after ->
        (~ blank t ->
           validTokens tokens = validTokens before ++ t :: validTokens after)
        /\ (blank t ->
           validTokens tokens = validTokens before ++ validTokens after)).
Proof.
  assert (forall u, truthy (trim u) = true <-> ~ blank u) as Hnb.
  { intros u. rewrite truthy_trim, blank_forallb.
    destruct (forallb isWhiteSpace u); simpl; split; congruence. }
  split; [|split; [|split; [|split]]].
  - rewrite Hnb. unfold blank. rewrite <- Exists_Forall_neg
      by (intros c; destruct (isWhiteSpace c); [by left|by right]).
    rewrite Exists_exists. split.
    + intros (c & Hc & Hw). exists c. split; [exact Hc|].
      by destruct (isWhiteSpace c).
    + intros (c & Hc & Hw). exists c. split; [exact Hc|]. congruence.
  - unfold validTokens. rewrite list_elem_of_In, filter_In, <- list_elem_of_In.
    by rewrite Hnb.
  - unfold validTokens. induction tokens as [|x l IH]; [constructor|]. simpl.
    destruct (truthy (trim x)); [by apply sublist_skip|by apply sublist_cons].
  - unfold validTokens, non_blank_fields. apply filter_ext. intros u.
    rewrite truthy_trim. induction u as [|c u IH]; [reflexivity|]. simpl.
    destruct (isWhiteSpace c); [exact IH|reflexivity].
  - intros before after ->. rewrite validTokens_app. split.
    + intros Hn. unfold validTokens at 2. by rewrite filter_keep by (by apply Hnb).
    + intros Hb. by rewrite (validTokens_blank_cons t after Hb).
Qed.

Lemma filter_keeps_non_blank_witness :
  validTokens [js "btc"; js " "; js "btc"] = [js "btc"; js "btc"].
Proof.
  destruct (filter_keeps_non_blank [js "btc"; js " "; js "btc"] (js "btc"))
    as (_ & _ & _ & _ & H).
  destruct (H [] [js " "; js "btc"] eq_refl) as [Hkeep _].
  rewrite Hkeep; [by vm_compute|].
  intros Hb. apply blank_forallb in Hb. vm_compute in Hb. discriminate.
Defined.
